(** * Structural inference and relevance ranking: a shallow embedding

    The development follows the Python sources
      - [src/utils/text_utils.py]        (class [TextProcessor]),
      - [src/utils/pdf_utils.py]         (class [PDFProcessor]),
      - [src/round1a/outline_extractor.py] (class [OutlineExtractor]),
      - [src/round1b/relevance_extractor.py] (class [RelevanceExtractor]).

    Modelling conventions.
      - A Python [str] is a list of characters, [pystr := list ascii].  The
        256 values of [ascii] stand for the code points U+0000..U+00FF, and
        the character classes below ([str.isspace], [str.isupper], [\d],
        [\w], [\s], [str.lower]) are the ones CPython uses on that range.
        All string operations used by the sources stay inside that range.
      - Font sizes and relevance scores are finite Python numbers.  A
        number is represented by its exact rational value in [Qc], so that
        comparison and equality are the exact ones of Python.  The division
        and the comparison with [1.1] in [is_likely_heading] are those of
        binary64 ([PrimFloat], see [Binary64]); a rational that is not the
        value of a double, such as the exact mean of some font sizes, is
        rounded to the nearest double there.  NaN and the infinities are
        outside the model.
      - A [dict] literal with statically known keys that is only read by
        the code is a record; the outline entries, whose key set matters,
        are finite maps [gmap string pyval].
      - External collaborators (the spaCy pipeline, the sentence-embedding
        model, numpy's cosine) are parameters. *)

From Stdlib Require Import ZArith QArith Qcanon Ascii String DecimalString List Permutation Sorted Lia.
From Stdlib Require PrimFloat SpecFloat FloatOps.
From stdpp Require Import base decidable option list gmap strings.

Local Open Scope Z_scope.

(** ** Python strings over U+0000..U+00FF *)

Module PyStr.

Abbreviation pystr := (list ascii).

Definition str (s : string) : pystr := list_ascii_of_string s.

Definition code (c : ascii) : N := N_of_ascii c.

Definition in_range (lo hi : N) (c : ascii) : bool :=
  ((lo <=? code c) && (code c <=? hi))%N.

Definition is_code (n : N) (c : ascii) : bool := (code c =? n)%N.

(** [str.isspace] on one character; the same class is used by
    [str.strip()] without arguments and by the regex escape [\s]. *)
Definition isspace (c : ascii) : bool :=
  in_range 9 13 c || in_range 28 32 c || is_code 133 c || is_code 160 c.

(** Regex [\d] on a [str] pattern: decimal digits. *)
Definition re_digit (c : ascii) : bool := in_range 48 57 c.

(** Regex [[A-Z]]. *)
Definition re_capital (c : ascii) : bool := in_range 65 90 c.

(** Cased characters ([Py_UNICODE_ISUPPER], [Py_UNICODE_ISLOWER]); the
    range has no title-case character. *)
Definition isupper_char (c : ascii) : bool :=
  in_range 65 90 c || in_range 192 214 c || in_range 216 222 c.

Definition islower_char (c : ascii) : bool :=
  in_range 97 122 c || is_code 170 c || is_code 181 c || is_code 186 c
  || in_range 223 246 c || in_range 248 255 c.

(** Regex [\w]: alphanumeric characters and the underscore. *)
Definition re_word (c : ascii) : bool :=
  in_range 48 57 c || in_range 65 90 c || is_code 95 c || in_range 97 122 c
  || is_code 170 c || in_range 178 179 c || is_code 181 c
  || in_range 185 186 c || in_range 188 190 c
  || in_range 192 214 c || in_range 216 246 c || in_range 248 255 c.

Definition lower_char (c : ascii) : ascii :=
  if isupper_char c then ascii_of_N (code c + 32) else c.

(** [s.lower()] *)
Definition lower (s : pystr) : pystr := map lower_char s.

(** [s.strip()] *)
Fixpoint lstrip (s : pystr) : pystr :=
  match s with
  | c :: s' => if isspace c then lstrip s' else s
  | [] => []
  end.

Definition rstrip (s : pystr) : pystr := rev (lstrip (rev s)).

Definition strip (s : pystr) : pystr := rstrip (lstrip s).

(** [s.startswith(p)], [s.endswith(p)] *)
Fixpoint startswith (s p : pystr) {struct p} : bool :=
  match p, s with
  | [], _ => true
  | a :: p', b :: s' => Ascii.eqb a b && startswith s' p'
  | _ :: _, [] => false
  end.

Definition endswith (s p : pystr) : bool := startswith (rev s) (rev p).

(** [p in s] (substring test) *)
Fixpoint contains (s p : pystr) : bool :=
  startswith s p ||
  match s with
  | [] => false
  | _ :: s' => contains s' p
  end.

(** [s.isupper()]: no lower-case character and at least one upper-case
    one.  The loop carries the flag [cased]. *)
Fixpoint isupper_loop (cased : bool) (s : pystr) : bool :=
  match s with
  | [] => cased
  | c :: s' =>
      if islower_char c then false
      else isupper_loop (cased || isupper_char c) s'
  end.

Definition isupper (s : pystr) : bool := isupper_loop false s.

(** [s.istitle()]: upper-case characters only after uncased ones,
    lower-case characters only after cased ones, at least one cased. *)
Fixpoint istitle_loop (cased previous_is_cased : bool) (s : pystr) : bool :=
  match s with
  | [] => cased
  | c :: s' =>
      if isupper_char c then
        if previous_is_cased then false else istitle_loop true true s'
      else if islower_char c then
        if previous_is_cased then istitle_loop true true s' else false
      else istitle_loop cased false s'
  end.

Definition istitle (s : pystr) : bool := istitle_loop false false s.

(** [s.split(sep)] for a one-character separator: always at least one
    fragment. *)
Fixpoint split_on (sep : ascii) (s : pystr) : list pystr :=
  match s with
  | [] => [[]]
  | c :: s' =>
      if Ascii.eqb c sep then [] :: split_on sep s'
      else match split_on sep s' with
           | w :: ws => (c :: w) :: ws
           | [] => [[c]]
           end
  end.

(** [sep.join(parts)] *)
Fixpoint join (sep : pystr) (parts : list pystr) : pystr :=
  match parts with
  | [] => []
  | [p] => p
  | p :: ps => p ++ sep ++ join sep ps
  end.

(** ** The fragment of regular expressions used by the sources

    Every pattern of [text_utils.py] is a sequence of character classes,
    each taken once or one-or-more times.  [re.match] succeeds when some
    prefix of the subject matches; the matcher backtracks over the
    lengths of the repeated classes. *)

Inductive atom : Type :=
  | One (cls : ascii -> bool)
  | Plus (cls : ascii -> bool).

Fixpoint re_match (p : list atom) (s : pystr) {struct p} : bool :=
  match p with
  | [] => true
  | One cls :: p' =>
      match s with
      | c :: s' => cls c && re_match p' s'
      | [] => false
      end
  | Plus cls :: p' =>
      (fix more (s : pystr) : bool :=
         match s with
         | c :: s' => cls c && (more s' || re_match p' s')
         | [] => false
         end) s
  end.

End PyStr.

Import PyStr.

(** ** Python's stable [list.sort] / [sorted] *)

Section StableSort.
Context {A : Type} (leb : A -> A -> bool).

(** [x] is placed in front of the first element it is not greater than. *)
Fixpoint insert_sorted (x : A) (l : list A) : list A :=
  match l with
  | [] => [x]
  | y :: l' => if leb x y then x :: l else y :: insert_sorted x l'
  end.

Definition stable_sort (l : list A) : list A := foldr insert_sorted [] l.

End StableSort.

Section PySort.
Context {A K : Type} (kleb : K -> K -> bool).

(** Order on decorated elements: ascending keys, or descending keys when
    [reverse=True]; in both cases elements with equal keys keep their
    order. *)
Definition key_leb (reverse : bool) (a b : K * A) : bool :=
  if reverse then kleb (fst b) (fst a) else kleb (fst a) (fst b).

(** The order that [key_leb] induces on the elements themselves. *)
Definition by_key (key : A -> K) (reverse : bool) (x y : A) : bool :=
  key_leb reverse (key x, x) (key y, y).

(** [sorted(l, key=key, reverse=reverse)] for a key function that cannot
    fail. *)
Definition sorted_by (key : A -> K) (reverse : bool) (l : list A) : list A :=
  map snd (stable_sort (key_leb reverse) (map (fun x => (key x, x)) l)).

(** The same for a key function that may raise ([None]), as a subscript
    on a dictionary does: the keys are computed first, for every
    element. *)
Definition list_sort (key : A -> option K) (reverse : bool) (l : list A)
  : option (list A) :=
  keys ← mapM key l;
  Some (map snd (stable_sort (key_leb reverse) (zip keys l))).

End PySort.

Definition Qc_ltb (x y : Qc) : bool :=
  match (x ?= y)%Qc with Lt => true | _ => false end.

Definition Qc_leb (x y : Qc) : bool :=
  match (x ?= y)%Qc with Gt => false | _ => true end.

(** ** Binary64 arithmetic

    Python's [float] is IEEE 754 binary64, the format of [PrimFloat].
    [of_Qc x] is the double nearest to the rational [x] (ties to even),
    hence the double itself when [x] is the value of a double or of an
    [int] below 2^53: the quotient of numerator and denominator is
    rounded once by the division of [SpecFloat]. *)

Module Binary64.

Import PrimFloat.

Definition of_Qc (x : Qc) : PrimFloat.float :=
  match this x with
  | Qmake p q =>
      match p with
      | Z0 => PrimFloat.zero
      | Zpos m =>
          FloatOps.SF2Prim
            (SpecFloat.SFdiv FloatOps.prec FloatOps.emax
               (SpecFloat.S754_finite false m 0)
               (SpecFloat.S754_finite false q 0))
      | Zneg m =>
          FloatOps.SF2Prim
            (SpecFloat.SFdiv FloatOps.prec FloatOps.emax
               (SpecFloat.S754_finite true m 0)
               (SpecFloat.S754_finite false q 0))
      end
  end.

(** The double that Python reads for the literal [1.1]. *)
Definition one_point_one : PrimFloat.float := 0x1.199999999999ap+0%float.

End Binary64.

(** ** [src/utils/text_utils.py] *)

Module TextProcessor.

(** What the code reads of a spaCy token. *)
Record token : Type := {
  text : pystr;
  is_alpha : bool;
  is_stop : bool;
  is_punct : bool;
  lemma_ : pystr
}.

(** [self.nlp] is the loaded pipeline, or [None] when the model could
    not be loaded in [__init__]. *)
Record t : Type := { nlp : option (pystr -> list token) }.

(** [re.sub(r'\s+', ' ', text)] *)
Fixpoint sub_whitespace_runs (in_run : bool) (s : pystr) : pystr :=
  match s with
  | [] => []
  | c :: s' =>
      if isspace c then
        if in_run then sub_whitespace_runs true s'
        else " "%char :: sub_whitespace_runs true s'
      else c :: sub_whitespace_runs false s'
  end.

(** The class [[^\w\s\.\,\!\?\:\;\-\(\)]]. *)
Definition is_special (c : ascii) : bool :=
  negb (re_word c || isspace c
        || existsb (Ascii.eqb c) (str ".,!?:;-()")).

Definition clean_text (text : pystr) : pystr :=
  match text with
  | [] => []
  | _ =>
      let text := sub_whitespace_runs false text in
      let text := map (fun c => if is_special c then " "%char else c) text in
      strip text
  end.

Definition dot_or_paren (c : ascii) : bool :=
  Ascii.eqb c "."%char || Ascii.eqb c ")"%char.

Definition dot_or_space (c : ascii) : bool :=
  Ascii.eqb c "."%char || isspace c.

Definition heading_patterns : list (list atom) :=
  [ [Plus re_digit; One dot_or_paren; Plus isspace]   (* ^\d+[\.\)]\s+ *)
  ; [Plus re_capital; Plus dot_or_space]              (* ^[A-Z]+[\.\s]+ *)
  ; [Plus re_word; Plus isspace; Plus re_digit] ].    (* ^\w+\s+\d+ *)

Definition matches_pattern (text : pystr) : bool :=
  existsb (fun pattern => re_match pattern (strip text)) heading_patterns.

(** The five criteria and the score of [is_likely_heading]. *)
Definition heading_score (text : pystr) (font_size avg_font_size : Qc) : Z :=
  let font_size_ratio :=
    if Qc_ltb 0 avg_font_size
    then PrimFloat.div (Binary64.of_Qc font_size) (Binary64.of_Qc avg_font_size)
    else PrimFloat.one in
  let is_larger_font := PrimFloat.ltb Binary64.one_point_one font_size_ratio in
  let is_short := (length text <? 100)%nat in
  let is_capitalized := isupper text || istitle text in
  let ends_with_colon := endswith (strip text) (str ":") in
  let score := 0 in
  let score := if is_larger_font then score + 2 else score in
  let score := if is_short then score + 1 else score in
  let score := if is_capitalized then score + 1 else score in
  let score := if ends_with_colon then score + 1 else score in
  let score := if matches_pattern text then score + 2 else score in
  score.

Definition is_likely_heading (text : pystr) (font_size avg_font_size : Qc)
  : bool :=
  match text with
  | [] => false
  | _ =>
      if (length (strip text) <? 3)%nat then false
      else 3 <=? heading_score text font_size avg_font_size
  end.

(** [collections.Counter] keeps its keys in first-seen order. *)
Fixpoint counter_add (w : pystr) (c : list (pystr * nat)) : list (pystr * nat) :=
  match c with
  | [] => [(w, 1%nat)]
  | (w', n) :: c' =>
      if decide (w = w') then (w', S n) :: c' else (w', n) :: counter_add w c'
  end.

Definition Counter (ws : list pystr) : list (pystr * nat) :=
  foldl (fun c w => counter_add w c) [] ws.

(** [most_common(n)]: by decreasing count, first-seen first among equal
    counts. *)
Definition most_common (n : nat) (c : list (pystr * nat)) : list (pystr * nat) :=
  take n (sorted_by Nat.leb snd true c).

Definition is_keyword (tok : token) : bool :=
  is_alpha tok && negb (is_stop tok) && negb (is_punct tok)
  && (2 <? length (text tok))%nat.

Definition extract_keywords (self : t) (text : pystr) (max_keywords : nat)
  : list pystr :=
  match nlp self, text with
  | None, _ => []
  | _, [] => []
  | Some nlp, _ =>
      let doc := nlp text in
      let keywords := map (fun tok => lower (lemma_ tok)) (filter (fun tok => is_keyword tok = true) doc) in
      let keyword_freq := Counter keywords in
      map fst (most_common max_keywords keyword_freq)
  end.

(** [l.index(x)]; [None] stands for [ValueError]. *)
Fixpoint list_index (l : list Qc) (x : Qc) : option nat :=
  match l with
  | [] => None
  | y :: l' => if decide (y = x) then Some 0%nat else S <$> list_index l' x
  end.

Definition classify_heading_level (text : pystr) (font_size : Qc)
  (font_sizes : list Qc) : pystr :=
  match font_sizes with
  | [] => str "H1"
  | _ =>
      let unique_sizes :=
        sorted_by Qc_leb id true (elements (list_to_set font_sizes : gset Qc)) in
      if (length unique_sizes <? 2)%nat then str "H1"
      else
        match list_index unique_sizes font_size with
        | Some size_rank =>
            if (size_rank =? 0)%nat then str "H1"
            else if (size_rank =? 1)%nat then str "H2"
            else str "H3"
        | None => str "H3"
        end
  end.

Definition cons_head (c : ascii) (parts : list pystr) : list pystr :=
  match parts with
  | w :: ws => (c :: w) :: ws
  | [] => [[c]]
  end.

(** [re.split(r'\n\n+', text)]: the text between the maximal runs of two
    or more line feeds.  [pending] counts the line feeds read since the
    last other character. *)
Fixpoint split_blank_lines (pending : nat) (s : pystr) : list pystr :=
  match s with
  | [] =>
      match pending with
      | 0%nat => [[]]
      | 1%nat => [["010"%char]]
      | _ => [[]; []]
      end
  | c :: s' =>
      if Ascii.eqb c "010"%char then split_blank_lines (S pending) s'
      else
        let rest := cons_head c (split_blank_lines 0 s') in
        match pending with
        | 0%nat => rest
        | 1%nat => cons_head "010"%char rest
        | _ => [] :: rest
        end
  end.

(** [s.split()]: the maximal runs of characters that are not white
    space. *)
Fixpoint split_whitespace (s : pystr) : list pystr :=
  match s with
  | [] => []
  | c :: s' =>
      if isspace c then split_whitespace s'
      else
        match s' with
        | c' :: _ =>
            if isspace c' then [c] :: split_whitespace s'
            else cons_head c (split_whitespace s')
        | [] => [[c]]
        end
  end.

Record text_section : Type := {
  index : nat;
  section_text : pystr;
  word_count : nat;
  char_count : nat
}.

Definition segment_text_into_sections (text : pystr) : list text_section :=
  match text with
  | [] => []
  | _ =>
      let sections := split_blank_lines 0 text in
      flat_map
        (fun '(i, section) =>
           let section := strip section in
           match section with
           | [] => []
           | _ =>
               if (20 <? length section)%nat
               then [ {| index := i;
                         section_text := section;
                         word_count := length (split_whitespace section);
                         char_count := length section |} ]
               else []
           end)
        (zip (seq 0 (length sections)) sections)
  end.

End TextProcessor.

(** Values stored in the dictionaries of the outline. *)
Inductive pyval : Type :=
  | PStr (s : pystr)
  | PInt (n : Z)
  | PNum (x : Qc).

Definition as_int (v : pyval) : option Z :=
  match v with PInt n => Some n | _ => None end.

Definition enumerate {A : Type} (l : list A) : list (nat * A) :=
  zip (seq 0 (length l)) l.

Definition Qc_of_nat (n : nat) : Qc := Q2Qc (inject_Z (Z.of_nat n)).

(** ** [src/utils/pdf_utils.py]

    The document object of the parser is represented by what the code
    reads of it: for every page the blocks of [get_text("dict")] and the
    plain text of [get_text()].  [self.doc] is [None] before a document
    is loaded and after it is closed.  Page numbers are the naturals that
    [range(page_count)] produces.  The tests [if self.doc] are read as
    "a document is present"; for a document without pages the methods
    below return the same values when the test is read as "present and
    with at least one page", because every page lookup fails then. *)

Module PDFProcessor.

(** A span of the parser: ["text"], ["size"], ["flags"], ["font"],
    ["bbox"]. *)
Record raw_span : Type := {
  raw_text : pystr;
  size : Qc;
  flags : Z;
  font : pystr;
  raw_bbox : Qc * Qc * Qc * Qc
}.

(** A block is its ["lines"], each line being its ["spans"]; [None] is a
    block without the key ["lines"]. *)
Record pdf_page : Type := {
  blocks : list (option (list (list raw_span)));
  plain_text : pystr
}.

Record item : Type := {
  text : pystr;
  font_size : Qc;
  font_flags : Z;
  font_name : pystr;
  bbox : Qc * Qc * Qc * Qc;
  page : Z
}.

Record t : Type := { doc : option (list pdf_page) }.

Definition get_page_count (self : t) : nat :=
  match doc self with
  | Some d => length d
  | None => 0%nat
  end.

Definition extract_text_with_formatting (self : t) (page_num : nat)
  : list item :=
  match doc self with
  | None => []
  | Some d =>
      match d !! page_num with
      | None => []
      | Some page =>
          flat_map
            (fun block =>
               match block with
               | None => []
               | Some lines =>
                   flat_map
                     (fun line =>
                        flat_map
                          (fun span =>
                             let text := strip (raw_text span) in
                             match text with
                             | [] => []
                             | _ => [ {| text := text;
                                         font_size := size span;
                                         font_flags := flags span;
                                         font_name := font span;
                                         bbox := raw_bbox span;
                                         page := Z.of_nat page_num + 1 |} ]
                             end)
                          line)
                     lines
               end)
            (blocks page)
      end
  end.

Definition extract_plain_text (self : t) (page_num : nat) : pystr :=
  match doc self with
  | None => []
  | Some d =>
      match d !! page_num with
      | None => []
      | Some page => plain_text page
      end
  end.

Definition extract_all_text (self : t) : pystr :=
  match doc self with
  | None => []
  | Some d =>
      foldl (fun full_text page_num =>
               full_text ++ extract_plain_text self page_num ++ ["010"%char])
            [] (seq 0 (length d))
  end.

(** [max(sizes)] for a non-empty list, given as head and tail. *)
Definition py_max (first : Qc) (rest : list Qc) : Qc :=
  foldl (fun m x => if Qc_ltb m x then x else m) first rest.

Definition detect_document_title (self : t) : option pystr :=
  match doc self with
  | None => None
  | Some _ =>
      let first_page_text := extract_text_with_formatting self 0 in
      match first_page_text with
      | [] => None
      | first :: rest =>
          let max_font_size := py_max (font_size first) (map font_size rest) in
          let title_candidates :=
            map text
                (List.filter
                   (fun item => bool_decide (font_size item = max_font_size))
                   first_page_text) in
          match title_candidates with
          | _ :: _ => Some (join (str " ") (take 2 title_candidates))
          | [] =>
              match List.filter (fun item => (10 <? length (text item))%nat)
                                first_page_text with
              | item :: _ => Some (text item)
              | [] => Some (str "Untitled Document")
              end
          end
      end
  end.

End PDFProcessor.

(** ** [src/round1a/outline_extractor.py] *)

Module OutlineExtractor.

(** A heading as [_extract_headings] builds it: the four keys
    ["level"], ["text"], ["page"], ["font_size"]. *)
Record heading : Type := {
  level : pystr;
  text : pystr;
  page : Z;
  font_size : Qc
}.

(** [sorted(list(set(h["font_size"] for h in headings)), reverse=True)] *)
Definition unique_font_sizes (headings : list heading) : list Qc :=
  let sizes : gset Qc := list_to_set (map font_size headings) in
  sorted_by Qc_leb id true (elements sizes).

(** The loop over [enumerate(unique_font_sizes[:3])]. *)
Definition font_to_level (unique_font_sizes : list Qc) : gmap Qc pystr :=
  foldl (fun (m : gmap Qc pystr) '(i, font_size) =>
           if (i =? 0)%nat then <[font_size := str "H1"]> m
           else if (i =? 1)%nat then <[font_size := str "H2"]> m
           else <[font_size := str "H3"]> m)
        ∅ (enumerate (take 3 unique_font_sizes)).

(** [heading["level"] = font_to_level.get(heading["font_size"], "H3")] *)
Definition set_level (font_to_level : gmap Qc pystr) (h : heading) : heading :=
  {| level := default (str "H3") (font_to_level !! font_size h);
     text := text h;
     page := page h;
     font_size := font_size h |}.

(** The dictionary appended to [refined_headings]. *)
Definition outline_entry (h : heading) : gmap string pyval :=
  {[ "level"%string := PStr (level h);
     "text"%string := PStr (text h);
     "page"%string := PInt (page h) ]}.

(** [lambda x: x["page"]] *)
Definition page_key (x : gmap string pyval) : option Z :=
  x !! "page"%string ≫= as_int.

(** [_refine_heading_hierarchy].  The result is [None] if an exception
    escapes; otherwise it pairs the input list after the in-place
    assignment of the levels with the returned outline. *)
Definition _refine_heading_hierarchy (headings : list heading)
  : option (list heading * list (gmap string pyval)) :=
  match headings with
  | [] => Some ([], [])
  | _ =>
      let unique_font_sizes := unique_font_sizes headings in
      let font_to_level := font_to_level unique_font_sizes in
      let headings := map (set_level font_to_level) headings in
      let refined_headings := map outline_entry headings in
      refined_headings ← list_sort Z.leb page_key false refined_headings;
      Some (headings, take 50 refined_headings)
  end.

(** The input list after the loop that assigns the levels. *)
Definition relevel (headings : list heading) : list heading :=
  map (set_level (font_to_level (unique_font_sizes headings))) headings.





End OutlineExtractor.

(** [str(n)] for an [int]. *)
Definition str_of_int (n : Z) : pystr :=
  str (DecimalString.NilZero.string_of_int (Z.to_int n)).

(** [l[start:stop]] for [0 <= start] and [0 <= stop]. *)
Definition slice {A : Type} (l : list A) (start stop : Z) : list A :=
  take (Z.to_nat stop - Z.to_nat start) (drop (Z.to_nat start) l).

(** ** [src/round1b/relevance_extractor.py]

    The state of a [RelevanceExtractor] that the modelled methods can see
    is the pair of [self.text_processor] and [self.sentence_model].  The
    methods that may reach the embedding backend return the object after
    the call next to their result.  Log records are not modelled.  The
    document parser is represented by the data it returns for a page. *)

Module RelevanceExtractor.

(** An item of [extract_text_with_formatting]; the bounding box, which
    no modelled method reads, is left out. *)
Record span : Type := {
  text : pystr;
  font_size : Qc;
  font_flags : Z;
  font_name : pystr;
  page : Z
}.

(** A heading found on a page: keys ["text"], ["font_size"], ["level"]. *)
Record page_heading : Type := {
  h_text : pystr;
  h_font_size : Qc;
  h_level : pystr
}.

Record section : Type := {
  document : pystr;
  s_page : Z;
  title : pystr;
  content : pystr;
  heading_level : pystr
}.

(** A copy of a section with the key ["relevance_score"] added. *)
Record scored_section : Type := {
  base : section;
  relevance_score : Qc
}.

Section Backend.
(** The vectors returned by the embedding model, and numpy's
    [dot(a, b) / (norm(a) * norm(b))] on them ([None]: it raises). *)
Context {embedding : Type}.
Context (cosine : embedding -> embedding -> option Qc).

(** [encode([text])[0]], or [None] when the call raises. *)
Record sentence_transformer : Type := {
  encode : pystr -> option embedding
}.

Record t : Type := {
  text_processor : TextProcessor.t;
  sentence_model : option sentence_transformer
}.

Definition _find_headings_in_page (self : t) (formatted_text : list span)
  : list page_heading :=
  match formatted_text with
  | [] => []
  | _ =>
      let font_sizes := map font_size formatted_text in
      let avg_font_size :=
        match font_sizes with
        | [] => Q2Qc 12
        | _ => (foldl Qcplus 0%Qc font_sizes / Qc_of_nat (length font_sizes))%Qc
        end in
      flat_map
        (fun item =>
           if TextProcessor.is_likely_heading (text item) (font_size item) avg_font_size
           then [ {| h_text := TextProcessor.clean_text (text item);
                     h_font_size := font_size item;
                     h_level := str "H2" |} ]
           else [])
        formatted_text
  end.

(** The search loop of [_extract_section_content]: the index of the first
    line containing the heading, [-1] if there is none. *)
Fixpoint find_heading_line (heading : pystr) (lines : list (nat * pystr)) : Z :=
  match lines with
  | [] => -1
  | (i, line) :: rest =>
      if contains (lower line) (lower heading) then Z.of_nat i
      else find_heading_line heading rest
  end.

Definition _extract_section_content (page_text heading : pystr) (page_num : Z)
  : pystr :=
  let lines := split_on "010"%char page_text in
  let heading_line_idx := find_heading_line heading (enumerate lines) in
  if heading_line_idx =? -1 then
    join (str " ") (take 10 lines)
  else
    let start_idx := heading_line_idx + 1 in
    let end_idx := Z.min (start_idx + 10) (Z.of_nat (length lines)) in
    let content_lines := slice lines start_idx end_idx in
    strip (join (str " ") content_lines).

(** The body of the page loop of [_extract_document_sections]: the
    sections appended for page [page_num] (0-based), given what the
    parser returned for it. *)
Definition page_sections (self : t) (filename : pystr) (page_num : Z)
  (formatted_text : list span) (plain_text : pystr) : list section :=
  let headings := _find_headings_in_page self formatted_text in
  match headings with
  | [] =>
      match strip plain_text with
      | [] => []
      | _ =>
          [ {| document := filename;
               s_page := page_num + 1;
               title := str "Page " ++ str_of_int (page_num + 1);
               content := plain_text;
               heading_level := str "content" |} ]
      end
  | _ =>
      map (fun heading =>
             let content :=
               _extract_section_content plain_text (h_text heading) page_num in
             {| document := filename;
                s_page := page_num + 1;
                title := h_text heading;
                content := content;
                heading_level := h_level heading |})
          headings
  end.

(** [_extract_document_sections]: [pages] is [None] when the document
    cannot be loaded, otherwise the parser's data for each page. *)
Definition _extract_document_sections (self : t) (filename : pystr)
  (pages : option (list (list span * pystr))) : list section :=
  match pages with
  | None => []
  | Some pages =>
      flat_map (fun '(page_num, (formatted_text, plain_text)) =>
                  page_sections self filename (Z.of_nat page_num)
                                formatted_text plain_text)
               (enumerate pages)
  end.

Definition keyword_set (self : t) (text : pystr) : gset pystr :=
  list_to_set (TextProcessor.extract_keywords (text_processor self) (lower text) 10).

Definition _calculate_keyword_relevance (self : t) (query text : pystr)
  : Qc * t :=
  match query, text with
  | [], _ | _, [] => (0%Qc, self)
  | _, _ =>
      let query_keywords := keyword_set self query in
      let text_keywords := keyword_set self text in
      if decide (query_keywords = ∅) then (0%Qc, self)
      else
        let intersection := size (query_keywords ∩ text_keywords) in
        let union := size (query_keywords ∪ text_keywords) in
        if (0 <? union)%nat
        then ((Qc_of_nat intersection / Qc_of_nat union)%Qc, self)
        else (0%Qc, self)
  end.

(** The [try] block fails when [self.sentence_model] is [None], when one
    of the two [encode] calls raises, or when the cosine raises; every
    failure is caught by [except Exception]. *)
Definition _calculate_semantic_relevance (self : t) (query text : pystr)
  : Qc * t :=
  let attempt : option Qc :=
    model ← sentence_model self;
    query_embedding ← encode model query;
    text_embedding ← encode model text;
    cosine query_embedding text_embedding in
  match attempt with
  | Some similarity => (similarity, self)
  | None => _calculate_keyword_relevance self query text
  end.

(** One iteration of the scoring loop of [_rank_sections_by_relevance]. *)
Definition score_section (self : t) (query : pystr) (section : section)
  : scored_section * t :=
  let combined_text := title section ++ str " " ++ content section in
  let '(relevance_score, self) :=
    match sentence_model self with
    | Some _ => _calculate_semantic_relevance self query combined_text
    | None => _calculate_keyword_relevance self query combined_text
    end in
  ({| base := section; relevance_score := relevance_score |}, self).

Fixpoint score_sections (self : t) (query : pystr) (sections : list section)
  : list scored_section * t :=
  match sections with
  | [] => ([], self)
  | section :: rest =>
      let '(section_copy, self) := score_section self query section in
      let '(scored_sections, self) := score_sections self query rest in
      (section_copy :: scored_sections, self)
  end.

Definition _rank_sections_by_relevance (self : t) (sections : list section)
  (persona job_to_be_done : pystr) : list scored_section * t :=
  match sections with
  | [] => ([], self)
  | _ =>
      let query := persona ++ str " " ++ job_to_be_done in
      let '(scored_sections, self) := score_sections self query sections in
      (sorted_by Qc_leb relevance_score true scored_sections, self)
  end.

End Backend.

Arguments sentence_transformer embedding : clear implicits.
Arguments t embedding : clear implicits.

Definition is_relevant (sentence persona job_to_be_done : pystr) : bool :=
  existsb (fun keyword => contains (lower sentence) (lower keyword))
          [persona; job_to_be_done].

Definition _create_refined_text (content persona job_to_be_done : pystr)
  : pystr :=
  match content with
  | [] => []
  | _ =>
      let sentences := split_on "."%char content in
      let relevant_sentences :=
        flat_map (fun sentence =>
                    let sentence := strip sentence in
                    if (20 <? length sentence)%nat
                       && is_relevant sentence persona job_to_be_done
                    then [sentence] else [])
                 (take 5 sentences) in
      let relevant_sentences :=
        match relevant_sentences with
        | [] => flat_map (fun s => if (20 <? length (strip s))%nat
                                   then [strip s] else [])
                         (take 2 sentences)
        | _ => relevant_sentences
        end in
      let refined := join (str ". ") (take 3 relevant_sentences) in
      if (300 <? length refined)%nat then take 300 refined ++ str "..."
      else refined
  end.

Record analysis_entry : Type := {
  a_document : pystr;
  a_page : Z;
  refined_text : pystr
}.

Record extracted_entry : Type := {
  e_document : pystr;
  e_page : Z;
  section_title : pystr;
  importance_rank : Z
}.

(** The result of [extract_relevant_sections]; the keys of ["metadata"]
    are the first four fields. *)
Record relevance_result : Type := {
  documents : list pystr;
  persona : pystr;
  job_to_be_done : pystr;
  timestamp : pystr;
  extracted_sections : list extracted_entry;
  sub_section_analysis : list analysis_entry
}.

Definition _generate_subsection_analysis (top_sections : list scored_section)
  (persona job_to_be_done : pystr) : list analysis_entry :=
  map (fun section =>
         let content := content (base section) in
         let refined_text := _create_refined_text content persona job_to_be_done in
         {| a_document := document (base section);
            a_page := s_page (base section);
            refined_text := refined_text |})
      (take 10 top_sections).

Section Pipeline.
Context {embedding : Type}.
Context (cosine : embedding -> embedding -> option Qc).

(** [extract_relevant_sections].  Every file is given by its name and by
    what the parser returns for it ([None]: it cannot be loaded); [now]
    is [datetime.now().isoformat()].  The dictionary [document_sections],
    which is written and never read, is left out. *)
Definition extract_relevant_sections (self : t embedding)
  (pdf_files : list (pystr * option (list (list span * pystr))))
  (persona job_to_be_done now : pystr) : relevance_result * t embedding :=
  let all_sections :=
    flat_map (fun '(filename, pages) =>
                _extract_document_sections self filename pages)
             pdf_files in
  let '(relevant_sections, self) :=
    _rank_sections_by_relevance cosine self all_sections persona job_to_be_done in
  let subsection_analysis :=
    _generate_subsection_analysis (take 10 relevant_sections)
                                  persona job_to_be_done in
  ({| documents := map fst pdf_files;
      persona := persona;
      job_to_be_done := job_to_be_done;
      timestamp := now;
      extracted_sections :=
        map (fun '(i, section) =>
               {| e_document := document (base section);
                  e_page := s_page (base section);
                  section_title := title (base section);
                  importance_rank := Z.of_nat i + 1 |})
            (enumerate (take 20 relevant_sections));
      sub_section_analysis := subsection_analysis |},
   self).

End Pipeline.

End RelevanceExtractor.

(** ** The specification's reading of the classifier and of the levels *)

Module Spec.

(** A non-empty run of characters of one class. *)
Definition run (cls : ascii -> bool) (w : pystr) : Prop :=
  w <> [] /\ Forall (fun c => cls c = true) w.

(** Leading ["<digits>. "] or ["<digits>) "]. *)
Definition numbered (s : pystr) : Prop :=
  exists ds c ws rest,
    s = ds ++ c :: ws ++ rest /\ run re_digit ds /\
    (c = "."%char \/ c = ")"%char) /\ run isspace ws.

(** A leading run of capital letters followed by ['.'] or white space. *)
Definition capitals_lead (s : pystr) : Prop :=
  exists caps seps rest,
    s = caps ++ seps ++ rest /\ run re_capital caps /\
    seps <> [] /\ Forall (fun c => c = "."%char \/ isspace c = true) seps.

(** ["<word> <digits>"], as in "Chapter 1". *)
Definition word_then_digits (s : pystr) : Prop :=
  exists w ws ds rest,
    s = w ++ ws ++ ds ++ rest /\ run re_word w /\ run isspace ws /\
    run re_digit ds.

(** The subject has a prefix that decomposes as the pattern says. *)
Fixpoint accepts (p : list atom) (s : pystr) : Prop :=
  match p with
  | [] => True
  | One cls :: p' => exists c s', s = c :: s' /\ cls c = true /\ accepts p' s'
  | Plus cls :: p' =>
      exists r s', s = r ++ s' /\ run cls r /\ accepts p' s'
  end.

(** The points awarded for the five criteria, each criterion given by its
    truth value. *)
Definition points (larger short capitalized colon pattern : bool) : Z :=
  (if larger then 2 else 0) + (if short then 1 else 0)
  + (if capitalized then 1 else 0) + (if colon then 1 else 0)
  + (if pattern then 2 else 0).

(** Ranking of the distinct font sizes: the largest size, and the largest
    among the sizes below it. *)
Definition largest (sizes : list Qc) (s : Qc) : Prop :=
  s ∈ sizes /\ forall t, t ∈ sizes -> (t <= s)%Qc.

Definition second_largest (sizes : list Qc) (s : Qc) : Prop :=
  s ∈ sizes /\
  exists m, largest sizes m /\ (s < m)%Qc /\
            forall t, t ∈ sizes -> (t < m)%Qc -> (t <= s)%Qc.

(** The level that the ranking gives to a size. *)
Definition level_by_rank (sizes : list Qc) (s : Qc) (lvl : pystr) : Prop :=
  (largest sizes s -> lvl = str "H1") /\
  (second_largest sizes s -> lvl = str "H2") /\
  (~ largest sizes s -> ~ second_largest sizes s -> lvl = str "H3").

(** A candidate after refinement: only its level may have changed, and
    the level is the one of its size's rank among [sizes]. *)
Definition releveled (sizes : list Qc)
  (h h' : OutlineExtractor.heading) : Prop :=
  OutlineExtractor.text h' = OutlineExtractor.text h /\
  OutlineExtractor.page h' = OutlineExtractor.page h /\
  OutlineExtractor.font_size h' = OutlineExtractor.font_size h /\
  level_by_rank sizes (OutlineExtractor.font_size h) (OutlineExtractor.level h').

(** The candidates behind the entries of the outline, in the order of the
    outline: sorted by page, the first 50. *)
Definition kept (headings : list OutlineExtractor.heading)
  : list OutlineExtractor.heading :=
  take 50 (sorted_by Z.leb OutlineExtractor.page false headings).

(** [again] is an input for a second run built from the outline of a
    first run on [headings]: the text and page of each entry, with the
    font size the entry's candidate had. *)
Definition restored (headings : list OutlineExtractor.heading)
  (outline : list (gmap string pyval))
  (again : list OutlineExtractor.heading) : Prop :=
  Forall2 (fun e a => e !! "text"%string = Some (PStr (OutlineExtractor.text a))
                      /\ e !! "page"%string = Some (PInt (OutlineExtractor.page a)))
          outline again /\
  Forall2 (fun k a => OutlineExtractor.font_size a = OutlineExtractor.font_size k)
          (kept headings) again.

(** A second run on the restored outline returns the same outline and
    assigns the levels the outline shows. *)
Definition rerun_agrees (headings : list OutlineExtractor.heading) : Prop :=
  forall headings' outline again,
    OutlineExtractor._refine_heading_hierarchy headings
      = Some (headings', outline) ->
    restored headings outline again ->
    exists again',
      OutlineExtractor._refine_heading_hierarchy again = Some (again', outline)
      /\ Forall2 (fun e a => e !! "level"%string
                             = Some (PStr (OutlineExtractor.level a)))
                 outline again'.

(** The headings of [test_heading_hierarchy_refinement]. *)
Definition sample_headings : list OutlineExtractor.heading :=
  [ OutlineExtractor.Build_heading (str "H1") (str "Chapter 1") 1 (Q2Qc 16);
    OutlineExtractor.Build_heading (str "H2") (str "Section 1.1") 1 (Q2Qc 14);
    OutlineExtractor.Build_heading (str "H3") (str "Subsection 1.1.1") 2 (Q2Qc 12);
    OutlineExtractor.Build_heading (str "H1") (str "Chapter 2") 3 (Q2Qc 16) ].

(** Fifty body-size headings on page 1 followed by one larger heading on
    page 2. *)
Definition crowded_headings : list OutlineExtractor.heading :=
  replicate 50 (OutlineExtractor.Build_heading (str "H1") (str "Item") 1 (Q2Qc 12))
  ++ [ OutlineExtractor.Build_heading (str "H1") (str "Appendix") 2 (Q2Qc 16) ].

(** Page segmentation.  The baseline of a page is the mean font size of
    its spans; the accepted spans are those the classifier accepts with
    that baseline. *)
Definition page_average (formatted_text : list RelevanceExtractor.span) : Qc :=
  (foldl Qcplus 0%Qc (map RelevanceExtractor.font_size formatted_text)
   / Qc_of_nat (length formatted_text))%Qc.

Definition accepted (formatted_text : list RelevanceExtractor.span)
  : list RelevanceExtractor.span :=
  List.filter
    (fun item =>
       TextProcessor.is_likely_heading (RelevanceExtractor.text item)
         (RelevanceExtractor.font_size item) (page_average formatted_text))
    formatted_text.



(** Example collaborators.  [word_pipeline] is a small stand-in for a
    loaded pipeline: the tokens are the words between blanks, a word is a
    stop word when it is in [stop_words], and the lemma of a word is the
    word.  [blank_shy_model] fails to encode the empty string. *)
Definition stop_words : list pystr :=
  map str ["the"; "and"; "was"; "is"; "to"; "be"; "of"; "in"; "a"]%string.

Definition word_token (w : pystr) : TextProcessor.token :=
  {| TextProcessor.text := w;
     TextProcessor.is_alpha := forallb (fun c => isupper_char c || islower_char c) w;
     TextProcessor.is_stop := bool_decide (w ∈ stop_words);
     TextProcessor.is_punct := false;
     TextProcessor.lemma_ := w |}.

Definition word_pipeline (text : pystr) : list TextProcessor.token :=
  map word_token
      (List.filter (fun w => negb (Nat.eqb (length w) 0)) (split_on " "%char text)).

Definition blank_shy_model : RelevanceExtractor.sentence_transformer unit :=
  {| RelevanceExtractor.encode :=
       fun text => match text with [] => None | _ => Some tt end |}.

Definition extractor_without_nlp : RelevanceExtractor.t unit :=
  {| RelevanceExtractor.text_processor := {| TextProcessor.nlp := None |};
     RelevanceExtractor.sentence_model := None |}.

Definition extractor_with_words : RelevanceExtractor.t unit :=
  {| RelevanceExtractor.text_processor :=
       {| TextProcessor.nlp := Some word_pipeline |};
     RelevanceExtractor.sentence_model := None |}.

Definition extractor_with_model : RelevanceExtractor.t unit :=
  {| RelevanceExtractor.text_processor :=
       {| TextProcessor.nlp := Some word_pipeline |};
     RelevanceExtractor.sentence_model := Some blank_shy_model |}.

(** The keywords of a text before counting, and how often a word occurs
    among them. *)
Definition candidate_keywords (pipeline : pystr -> list TextProcessor.token)
  (text : pystr) : list pystr :=
  map (fun tok => lower (TextProcessor.lemma_ tok))
      (filter (fun tok => TextProcessor.is_keyword tok = true) (pipeline text)).

Definition frequency (w : pystr) (ws : list pystr) : nat :=
  length (filter (fun x => x = w) ws).

(** The count that a counter holds for a word. *)
Fixpoint counter_get (c : list (pystr * nat)) (x : pystr) : nat :=
  match c with
  | [] => 0%nat
  | (w, n) :: c' => if decide (x = w) then n else counter_get c' x
  end.



End Spec.

(** * Properties *)

(** ** Strings *)

Lemma startswith_spec (s p : pystr) :
  startswith s p = true <-> exists r, s = p ++ r.
Proof.
  revert s. induction p as [|a p IH]; intros s; simpl.
  - split; eauto.
  - destruct s as [|b s].
    + split; [discriminate | intros [r Hr]; discriminate].
    + rewrite andb_true_iff, IH, Ascii.eqb_eq. split.
      * intros [-> [r ->]]. eauto.
      * intros [r Hr]. injection Hr as -> ->. eauto.
Qed.

Lemma endswith_spec (s p : pystr) :
  endswith s p = true <-> exists r, s = r ++ p.
Proof.
  unfold endswith. rewrite startswith_spec. split.
  - intros [r Hr]. exists (rev r).
    rewrite <- (rev_involutive s), Hr, rev_app_distr, rev_involutive.
    reflexivity.
  - intros [r ->]. exists (rev r). apply rev_app_distr.
Qed.

(** ** Regular expressions: the matcher finds a matching prefix exactly
    when the subject decomposes as the pattern says *)

Lemma re_match_plus (cls : ascii -> bool) (p : list atom) (s : pystr) :
  re_match (Plus cls :: p) s =
  match s with
  | c :: s' => cls c && (re_match (Plus cls :: p) s' || re_match p s')
  | [] => false
  end.
Proof. destruct s; reflexivity. Qed.

Lemma re_match_accepts (p : list atom) (s : pystr) :
  re_match p s = true <-> Spec.accepts p s.
Proof.
  revert s. induction p as [|[cls|cls] p IH]; intros s.
  - simpl. tauto.
  - simpl. destruct s as [|c s].
    + split; [discriminate | intros (c & s' & H & _); discriminate].
    + rewrite andb_true_iff, IH. split.
      * intros [Hc Hs]. eauto.
      * intros (c' & s' & H & Hc & Hs). injection H as -> ->. auto.
  - induction s as [|c s IHs]; rewrite re_match_plus.
    + split; [discriminate |].
      intros (r & s' & H & [Hne _] & _).
      destruct r; [congruence | discriminate].
    + rewrite andb_true_iff, orb_true_iff, IHs, IH. simpl. split.
      * intros [Hc [(r & s' & -> & [_ Hr] & Hs) | Hs]].
        -- exists (c :: r), s'. repeat split; auto; try discriminate.
        -- exists [c], s. repeat split; auto; try discriminate.
      * intros (r & s' & H & [Hne Hr] & Hs).
        destruct r as [|c' r]; [congruence |].
        injection H as -> ->. inversion Hr; subst. split; [assumption |].
        destruct r as [|c'' r]; [right; assumption | left].
        exists (c'' :: r), s'. repeat split; auto; try discriminate.
Qed.

Lemma dot_or_paren_spec (c : ascii) :
  TextProcessor.dot_or_paren c = true <-> c = "."%char \/ c = ")"%char.
Proof.
  unfold TextProcessor.dot_or_paren.
  rewrite orb_true_iff, !Ascii.eqb_eq. tauto.
Qed.

Lemma dot_or_space_spec (c : ascii) :
  TextProcessor.dot_or_space c = true <-> c = "."%char \/ isspace c = true.
Proof.
  unfold TextProcessor.dot_or_space.
  rewrite orb_true_iff, Ascii.eqb_eq. tauto.
Qed.

Lemma matches_pattern_spec (text : pystr) :
  TextProcessor.matches_pattern text = true <->
  Spec.numbered (strip text) \/ Spec.capitals_lead (strip text)
  \/ Spec.word_then_digits (strip text).
Proof.
  unfold TextProcessor.matches_pattern, TextProcessor.heading_patterns.
  cbn [existsb]. rewrite !orb_true_iff, !re_match_accepts. cbn [Spec.accepts].
  generalize (strip text) as s. intros s. split.
  - intros [H | [H | [H | H]]]; [| | |discriminate].
    + left. destruct H as (ds & s1 & -> & Hds & c & s2 & -> & Hc & ws & rest & -> & Hws & _).
      exists ds, c, ws, rest. rewrite dot_or_paren_spec in Hc. auto.
    + right; left.
      destruct H as (caps & s1 & -> & Hcaps & seps & rest & -> & [Hne Hseps] & _).
      exists caps, seps, rest. repeat split; auto; try apply Hcaps.
      eapply Forall_impl; [exact Hseps|]. intros c. apply dot_or_space_spec.
    + right; right.
      destruct H as (w & s1 & -> & Hw & ws & s2 & -> & Hws & ds & rest & -> & Hds & _).
      exists w, ws, ds, rest. auto.
  - intros [H | [H | H]].
    + left. destruct H as (ds & c & ws & rest & -> & Hds & Hc & Hws).
      exists ds, (c :: ws ++ rest). repeat split; try apply Hds.
      exists c, (ws ++ rest). rewrite dot_or_paren_spec. repeat split; auto.
      exists ws, rest. auto.
    + right; left. destruct H as (caps & seps & rest & -> & Hcaps & Hne & Hseps).
      exists caps, (seps ++ rest). repeat split; try apply Hcaps.
      exists seps, rest. repeat split; auto.
      eapply Forall_impl; [exact Hseps|]. intros c. apply dot_or_space_spec.
    + right; right; left.
      destruct H as (w & ws & ds & rest & -> & Hw & Hws & Hds).
      exists w, (ws ++ ds ++ rest). repeat split; try apply Hw.
      exists ws, (ds ++ rest). repeat split; try apply Hws.
      exists ds, rest. auto.
Qed.

(** ** The span classifier *)

Lemma Qc_ltb_spec (x y : Qc) : Qc_ltb x y = true <-> (x < y)%Qc.
Proof.
  unfold Qc_ltb. rewrite Qclt_alt.
  destruct (x ?= y)%Qc; split; congruence.
Qed.

Lemma Qc_leb_spec (x y : Qc) : Qc_leb x y = true <-> (x <= y)%Qc.
Proof.
  unfold Qc_leb. rewrite Qcle_alt.
  destruct (x ?= y)%Qc; split; congruence.
Qed.

Lemma bool_eq_of_iff (a b : bool) : (a = true <-> b = true) -> a = b.
Proof. destruct a, b; intuition congruence. Qed.

Lemma is_likely_heading_unfold (text : pystr) (font_size avg_font_size : Qc) :
  TextProcessor.is_likely_heading text font_size avg_font_size =
  if (length (strip text) <? 3)%nat then false
  else 3 <=? TextProcessor.heading_score text font_size avg_font_size.
Proof. destruct text; reflexivity. Qed.

(** C2.  For a positive average font size, a span whose stripped text has
    fewer than 3 characters is rejected; otherwise it is accepted exactly
    when the points are at least 3, where 2 points are given for
    [font_size / avg_font_size > 1.1] (the quotient and the comparison
    being those of binary64), 1 for a text shorter than 100
    characters, 1 for an upper-case or title-case text, 1 when the
    stripped text ends with a colon, 2 when the stripped text starts with
    digits, a dot or parenthesis and white space, or with capital letters
    followed by dots or white space, or with a word, white space and
    digits.  The score of the code is this sum, and a span with exactly 2
    points is rejected. *)
Theorem is_likely_heading_points (text : pystr) (font_size avg_font_size : Qc)
  (larger short capitalized colon pattern : bool) :
  (0 < avg_font_size)%Qc ->
  (larger = true <->
     PrimFloat.ltb Binary64.one_point_one
       (PrimFloat.div (Binary64.of_Qc font_size)
                      (Binary64.of_Qc avg_font_size)) = true) ->
  (short = true <-> (length text < 100)%nat) ->
  (capitalized = true <-> isupper text = true \/ istitle text = true) ->
  (colon = true <-> exists body, strip text = body ++ [":"%char]) ->
  (pattern = true <->
     Spec.numbered (strip text) \/ Spec.capitals_lead (strip text)
     \/ Spec.word_then_digits (strip text)) ->
  TextProcessor.heading_score text font_size avg_font_size
    = Spec.points larger short capitalized colon pattern /\
  ((length (strip text) < 3)%nat ->
     TextProcessor.is_likely_heading text font_size avg_font_size = false) /\
  ((3 <= length (strip text))%nat ->
     (TextProcessor.is_likely_heading text font_size avg_font_size = true <->
      3 <= Spec.points larger short capitalized colon pattern)) /\
  (Spec.points larger short capitalized colon pattern = 2 ->
     TextProcessor.is_likely_heading text font_size avg_font_size = false).
Proof.
  intros Havg Hlarger Hshort Hcap Hcolon Hpat.
  assert (Hscore : TextProcessor.heading_score text font_size avg_font_size
            = Spec.points larger short capitalized colon pattern).
  { unfold TextProcessor.heading_score, Spec.points.
    apply Qc_ltb_spec in Havg. rewrite Havg.
    rewrite <- (bool_eq_of_iff larger
                  (PrimFloat.ltb Binary64.one_point_one
                     (PrimFloat.div (Binary64.of_Qc font_size)
                                    (Binary64.of_Qc avg_font_size))))
      by exact Hlarger.
    rewrite <- (bool_eq_of_iff short (length text <? 100)%nat)
      by (rewrite Hshort, Nat.ltb_lt; tauto).
    rewrite <- (bool_eq_of_iff capitalized (isupper text || istitle text))
      by (rewrite Hcap, orb_true_iff; tauto).
    rewrite <- (bool_eq_of_iff colon (endswith (strip text) (str ":")))
      by (rewrite Hcolon, endswith_spec; tauto).
    rewrite <- (bool_eq_of_iff pattern (TextProcessor.matches_pattern text))
      by (rewrite Hpat, matches_pattern_spec; tauto).
    destruct larger, short, capitalized, colon, pattern; reflexivity. }
  rewrite is_likely_heading_unfold, Hscore.
  split; [reflexivity |].
  destruct (length (strip text) <? 3)%nat eqn:Hlen.
  - apply Nat.ltb_lt in Hlen. repeat split; intros; try reflexivity; lia.
  - apply Nat.ltb_ge in Hlen. rewrite Z.leb_le. split; [lia |].
    split; [tauto |]. intros ->. reflexivity.
Qed.

Lemma is_likely_heading_points_witness :
  TextProcessor.is_likely_heading (str "1. Scope:") (Q2Qc 14) (Q2Qc 12) = true.
Proof.
  destruct (is_likely_heading_points (str "1. Scope:") (Q2Qc 14) (Q2Qc 12)
              true true true true true) as (_ & _ & Hacc & _).
  - reflexivity.
  - split; [intros _; vm_compute; reflexivity | reflexivity].
  - split; [intros _; vm_compute; lia | reflexivity].
  - split; [intros _; right; reflexivity | reflexivity].
  - split; [intros _; exists (str "1. Scope"); reflexivity | reflexivity].
  - split; [intros _ | reflexivity].
    left. exists (str "1"), "."%char, (str " "), (str "Scope:").
    repeat split; try discriminate; auto; repeat constructor.
  - apply Hacc; vm_compute; [lia | discriminate].
Defined.

(** The quotient is rounded before it is compared: 11.000000000000002 / 10
    is the double 1.1, which does not exceed 1.1, so that a short
    lower-case text of this size is rejected at the average 10. *)
Example is_likely_heading_rounded_quotient :
  TextProcessor.is_likely_heading (str "hello there")
    (Q2Qc (6192449487634433 # 562949953421312)) (Q2Qc 10) = false.
Proof. vm_compute. reflexivity. Qed.

(** ** The stable sort *)

Section StableSortFacts.
Context {A : Type} (leb : A -> A -> bool).

Lemma insert_sorted_perm (x : A) (l : list A) :
  Permutation (insert_sorted leb x l) (x :: l).
Proof.
  induction l as [|y l IH]; simpl; [reflexivity |].
  destruct (leb x y); [reflexivity |].
  rewrite IH. apply perm_swap.
Qed.

Lemma stable_sort_perm (l : list A) : Permutation (stable_sort leb l) l.
Proof.
  induction l as [|x l IH]; simpl; [reflexivity |].
  rewrite insert_sorted_perm. apply perm_skip, IH.
Qed.

Lemma stable_sort_length (l : list A) : length (stable_sort leb l) = length l.
Proof. apply Permutation_length, stable_sort_perm. Qed.

(** A sorted list is left as it is: the sort never moves an element in
    front of one it is not smaller than. *)
Lemma stable_sort_sorted_id (l : list A) :
  StronglySorted (fun x y => leb x y = true) l -> stable_sort leb l = l.
Proof.
  induction 1 as [|x l Hs IH Hx]; simpl; [reflexivity |].
  rewrite IH. destruct Hx as [|y l Hxy _]; simpl; [reflexivity |].
  rewrite Hxy. reflexivity.
Qed.

(** Stability: the elements of a class whose members are mutually
    [leb]-related keep their relative order. *)
Lemma insert_sorted_filter (P : A -> Prop) `{!forall x, Decision (P x)}
  (x : A) (l : list A) :
  (forall y, P x -> P y -> leb x y = true) ->
  filter P (insert_sorted leb x l) = filter P (x :: l).
Proof.
  intros HP. induction l as [|y l IH]; simpl; [reflexivity |].
  destruct (leb x y) eqn:Hxy; [reflexivity |].
  rewrite filter_cons, IH, !filter_cons.
  destruct (decide (P y)) as [Hy|Hy]; [|reflexivity].
  destruct (decide (P x)) as [Hx|Hx]; [|reflexivity].
  rewrite (HP y Hx Hy) in Hxy. discriminate.
Qed.

Lemma stable_sort_filter (P : A -> Prop) `{!forall x, Decision (P x)}
  (l : list A) :
  (forall x y, P x -> P y -> leb x y = true) ->
  filter P (stable_sort leb l) = filter P l.
Proof.
  intros HP. induction l as [|x l IH]; simpl; [reflexivity |].
  rewrite insert_sorted_filter by (intros y; apply HP).
  rewrite !filter_cons, IH. reflexivity.
Qed.

Hypothesis leb_total : forall x y, leb x y = true \/ leb y x = true.
Hypothesis leb_trans :
  forall x y z, leb x y = true -> leb y z = true -> leb x z = true.

Lemma insert_sorted_sorted (x : A) (l : list A) :
  StronglySorted (fun x y => leb x y = true) l ->
  StronglySorted (fun x y => leb x y = true) (insert_sorted leb x l).
Proof.
  induction 1 as [|y l Hs IH Hy]; simpl.
  - repeat constructor.
  - destruct (leb x y) eqn:Hxy.
    + constructor; [constructor; assumption |].
      constructor; [assumption |].
      eapply Forall_impl; [exact Hy |]. intros z. apply leb_trans, Hxy.
    + constructor; [assumption |].
      rewrite Forall_forall. intros z Hz.
      apply list_elem_of_In in Hz.
      apply (Permutation_in _ (insert_sorted_perm x l)) in Hz.
      destruct Hz as [<- | Hz].
      * destruct (leb_total x y); congruence.
      * rewrite Forall_forall in Hy. apply Hy, list_elem_of_In, Hz.
Qed.

Lemma stable_sort_sorted (l : list A) :
  StronglySorted (fun x y => leb x y = true) (stable_sort leb l).
Proof.
  induction l as [|x l IH]; simpl; [constructor |].
  apply insert_sorted_sorted, IH.
Qed.

End StableSortFacts.

Section PySortFacts.
Context {A K : Type} (kleb : K -> K -> bool).

Lemma sorted_by_stable_sort (key : A -> K) (reverse : bool) (l : list A) :
  sorted_by kleb key reverse l = stable_sort (by_key kleb key reverse) l.
Proof.
  unfold sorted_by.
  assert (H : stable_sort (key_leb kleb reverse) (map (fun x => (key x, x)) l)
              = map (fun x => (key x, x)) (stable_sort (by_key kleb key reverse) l)).
  { induction l as [|x l IH]; simpl; [reflexivity |].
    rewrite IH. generalize (stable_sort (by_key kleb key reverse) l) as m.
    induction m as [|y m IHm]; simpl; [reflexivity |].
    unfold by_key at 1. destruct (key_leb kleb reverse (key x, x) (key y, y)).
    - reflexivity.
    - simpl. rewrite IHm. reflexivity. }
  rewrite H, map_map. simpl. apply map_id.
Qed.

Lemma list_sort_total (key : A -> option K) (f : A -> K) (reverse : bool)
  (l : list A) :
  Forall (fun x => key x = Some (f x)) l ->
  list_sort kleb key reverse l = Some (sorted_by kleb f reverse l).
Proof.
  intros Hkey. unfold list_sort, sorted_by.
  assert (Hm : mapM key l = Some (map f l)).
  { induction Hkey as [|x l Hx _ IH]; [reflexivity |].
    cbn. rewrite Hx. cbn. rewrite IH. reflexivity. }
  rewrite Hm. cbn. do 3 f_equal.
  clear. induction l as [|x l IH]; simpl; [reflexivity |].
  f_equal. exact IH.
Qed.

Lemma sorted_by_perm (key : A -> K) (reverse : bool) (l : list A) :
  Permutation (sorted_by kleb key reverse l) l.
Proof. rewrite sorted_by_stable_sort. apply stable_sort_perm. Qed.

Lemma sorted_by_length (key : A -> K) (reverse : bool) (l : list A) :
  length (sorted_by kleb key reverse l) = length l.
Proof. apply Permutation_length, sorted_by_perm. Qed.

Hypothesis kleb_refl : forall k, kleb k k = true.

Lemma sorted_by_stable `{EqDecision K} (key : A -> K) (reverse : bool)
  (k : K) (l : list A) :
  filter (fun x => key x = k) (sorted_by kleb key reverse l)
  = filter (fun x => key x = k) l.
Proof.
  rewrite sorted_by_stable_sort. apply stable_sort_filter.
  intros x y Hx Hy. unfold by_key, key_leb. simpl. rewrite Hx, Hy.
  destruct reverse; apply kleb_refl.
Qed.

Hypothesis kleb_total : forall j k, kleb j k = true \/ kleb k j = true.
Hypothesis kleb_trans :
  forall i j k, kleb i j = true -> kleb j k = true -> kleb i k = true.

Lemma sorted_by_sorted (key : A -> K) (reverse : bool) (l : list A) :
  StronglySorted (fun x y => by_key kleb key reverse x y = true)
                 (sorted_by kleb key reverse l).
Proof.
  rewrite sorted_by_stable_sort. apply stable_sort_sorted.
  - intros x y. unfold by_key, key_leb. simpl. destruct reverse; apply kleb_total.
  - intros x y z. unfold by_key, key_leb. simpl. destruct reverse; eauto.
Qed.

End PySortFacts.

Section SortTransport.
Context {A B K : Type} (kleb : K -> K -> bool).

Lemma stable_sort_map (leb : B -> B -> bool) (g : A -> B) (l : list A) :
  stable_sort leb (map g l)
  = map g (stable_sort (fun x y => leb (g x) (g y)) l).
Proof.
  induction l as [|x l IH]; simpl; [reflexivity |].
  rewrite IH. generalize (stable_sort (fun x y => leb (g x) (g y)) l) as m.
  induction m as [|y m IHm]; simpl; [reflexivity |].
  destruct (leb (g x) (g y)); simpl; [reflexivity |].
  rewrite IHm. reflexivity.
Qed.

Lemma sorted_by_map (f : B -> K) (g : A -> B) (reverse : bool) (l : list A) :
  sorted_by kleb f reverse (map g l)
  = map g (sorted_by kleb (fun x => f (g x)) reverse l).
Proof. rewrite !sorted_by_stable_sort. apply stable_sort_map. Qed.

End SortTransport.

(** ** Hierarchy refinement *)

Import OutlineExtractor.

Lemma Qc_leb_total (x y : Qc) : Qc_leb x y = true \/ Qc_leb y x = true.
Proof.
  rewrite !Qc_leb_spec. destruct (Qclt_le_dec x y) as [H|H]; [left | right].
  - apply Qclt_le_weak, H.
  - exact H.
Qed.

Lemma Qc_leb_trans (x y z : Qc) :
  Qc_leb x y = true -> Qc_leb y z = true -> Qc_leb x z = true.
Proof. rewrite !Qc_leb_spec. apply Qcle_trans. Qed.

Lemma Qc_leb_refl (x : Qc) : Qc_leb x x = true.
Proof. apply Qc_leb_spec, Qcle_refl. Qed.

Lemma Z_leb_total (x y : Z) : (x <=? y) = true \/ (y <=? x) = true.
Proof. rewrite !Z.leb_le. lia. Qed.

Lemma Z_leb_trans (x y z : Z) :
  (x <=? y) = true -> (y <=? z) = true -> (x <=? z) = true.
Proof. rewrite !Z.leb_le. lia. Qed.

Lemma StronglySorted_weaken {A : Type} (R R' : A -> A -> Prop) (l : list A) :
  (forall x y, R x y -> R' x y) -> StronglySorted R l -> StronglySorted R' l.
Proof.
  intros HR. induction 1 as [|x l Hs IH Hx]; constructor; [assumption |].
  eapply Forall_impl; [exact Hx |]. intros y. apply HR.
Qed.

Lemma unique_font_sizes_elem (hs : list heading) (s : Qc) :
  s ∈ unique_font_sizes hs <-> s ∈ map font_size hs.
Proof.
  unfold unique_font_sizes.
  rewrite (sorted_by_perm Qc_leb id true), elem_of_elements,
    elem_of_list_to_set.
  reflexivity.
Qed.

Lemma unique_font_sizes_NoDup (hs : list heading) :
  NoDup (unique_font_sizes hs).
Proof.
  unfold unique_font_sizes.
  rewrite (sorted_by_perm Qc_leb id true). apply NoDup_elements.
Qed.

Lemma unique_font_sizes_sorted (hs : list heading) :
  StronglySorted (fun x y => (y <= x)%Qc) (unique_font_sizes hs).
Proof.
  unfold unique_font_sizes.
  eapply StronglySorted_weaken;
    [| apply (sorted_by_sorted Qc_leb Qc_leb_total Qc_leb_trans)].
  intros x y H. apply Qc_leb_spec in H. exact H.
Qed.

(** The sizes depend on the set of font sizes only. *)
Lemma unique_font_sizes_ext (hs hs' : list heading) :
  (forall s, s ∈ map font_size hs <-> s ∈ map font_size hs') ->
  unique_font_sizes hs = unique_font_sizes hs'.
Proof.
  intros H. unfold unique_font_sizes.
  replace (list_to_set (map font_size hs') : gset Qc)
    with (list_to_set (map font_size hs) : gset Qc); [reflexivity |].
  apply set_eq. intros s. rewrite !elem_of_list_to_set. apply H.
Qed.

(** The dictionary [font_to_level], read with the default ["H3"], on a
    duplicate-free list of sizes. *)
Lemma font_to_level_lookup (us : list Qc) (s : Qc) :
  NoDup us ->
  default (str "H3") (font_to_level us !! s) =
  match us with
  | [] => str "H3"
  | a :: r =>
      if decide (s = a) then str "H1"
      else match r with
           | [] => str "H3"
           | b :: _ => if decide (s = b) then str "H2" else str "H3"
           end
  end.
Proof.
  intros Hnd. destruct us as [|a [|b [|c r]]].
  - reflexivity.
  - change (font_to_level [a]) with (<[a := str "H1"]> (∅ : gmap Qc pystr)).
    destruct (decide (s = a)) as [->|Hsa].
    + rewrite lookup_insert_eq. reflexivity.
    + rewrite lookup_insert_ne by congruence. reflexivity.
  - change (font_to_level [a; b])
      with (<[b := str "H2"]> (<[a := str "H1"]> (∅ : gmap Qc pystr))).
    apply NoDup_cons in Hnd as [Hab _].
    destruct (decide (s = a)) as [->|Hsa].
    + rewrite lookup_insert_ne, lookup_insert_eq; [reflexivity |].
      intros ->. apply Hab. left.
    + destruct (decide (s = b)) as [->|Hsb].
      * rewrite lookup_insert_eq. reflexivity.
      * rewrite !lookup_insert_ne by congruence. reflexivity.
  - change (font_to_level (a :: b :: c :: r))
      with (<[c := str "H3"]> (<[b := str "H2"]>
              (<[a := str "H1"]> (∅ : gmap Qc pystr)))).
    apply NoDup_cons in Hnd as [Ha Hnd]. apply NoDup_cons in Hnd as [Hb _].
    assert (Hab : a <> b) by (intros ->; apply Ha; left).
    assert (Hac : a <> c) by (intros ->; apply Ha; right; left).
    assert (Hbc : b <> c) by (intros ->; apply Hb; left).
    destruct (decide (s = a)) as [->|Hsa].
    + rewrite !lookup_insert_ne, lookup_insert_eq by congruence. reflexivity.
    + destruct (decide (s = b)) as [->|Hsb].
      * rewrite lookup_insert_ne, lookup_insert_eq by congruence. reflexivity.
      * destruct (decide (s = c)) as [->|Hsc].
        -- rewrite lookup_insert_eq. reflexivity.
        -- rewrite !lookup_insert_ne by congruence. reflexivity.
Qed.

Lemma level_by_rank_font_to_level (hs : list heading) (s : Qc) :
  Spec.level_by_rank (map font_size hs) s
    (default (str "H3") (font_to_level (unique_font_sizes hs) !! s)).
Proof.
  rewrite font_to_level_lookup by apply unique_font_sizes_NoDup.
  pose proof (unique_font_sizes_NoDup hs) as Hnd.
  pose proof (unique_font_sizes_sorted hs) as Hsorted.
  pose proof (unique_font_sizes_elem hs) as Helem.
  destruct (unique_font_sizes hs) as [|a r].
  { split; [| split]; [intros [Hin _] | intros [Hin _] | reflexivity];
      apply Helem in Hin; inversion Hin. }
  apply StronglySorted_inv in Hsorted as [Hsorted Ha].
  rewrite Forall_forall in Ha.
  apply NoDup_cons in Hnd as [Har Hnd].
  assert (Hmax : forall t, t ∈ map font_size hs -> (t <= a)%Qc).
  { intros t Ht. apply Helem, elem_of_cons in Ht as [-> | Ht];
      [apply Qcle_refl | apply Ha, Ht]. }
  assert (Hlargest_a : Spec.largest (map font_size hs) a).
  { split; [apply Helem; left | exact Hmax]. }
  assert (Huniq : forall m, Spec.largest (map font_size hs) m -> m = a).
  { intros m [Hm Hle]. apply Qcle_antisym; [apply Hmax, Hm |].
    apply Hle, Hlargest_a. }
  destruct (decide (s = a)) as [-> | Hsa].
  { split; [reflexivity |]. split; [| tauto].
    intros (_ & m & Hm & Hlt & _). apply Huniq in Hm. subst m.
    destruct (Qclt_not_le _ _ Hlt). apply Qcle_refl. }
  split; [intros Hs; destruct Hsa; apply Huniq, Hs |].
  destruct r as [|b r].
  { split; [| reflexivity].
    intros [Hin _]. apply Helem, elem_of_cons in Hin as [-> | Hin];
      [congruence | inversion Hin]. }
  apply StronglySorted_inv in Hsorted as [_ Hb]. rewrite Forall_forall in Hb.
  assert (Hba : (b < a)%Qc).
  { destruct (Qcle_lt_or_eq b a) as [H | ->]; [apply Ha; left | exact H |].
    destruct Har. left. }
  assert (Hbelow : forall t, t ∈ map font_size hs -> (t < a)%Qc -> (t <= b)%Qc).
  { intros t Ht Hlt. apply Helem, elem_of_cons in Ht as [-> | Ht].
    - destruct (Qclt_not_le _ _ Hlt). apply Qcle_refl.
    - apply elem_of_cons in Ht as [-> | Ht]; [apply Qcle_refl | apply Hb, Ht]. }
  assert (Hsecond_b : Spec.second_largest (map font_size hs) b).
  { split; [apply Helem; right; left |]. exists a. auto. }
  destruct (decide (s = b)) as [-> | Hsb].
  { split; [reflexivity | tauto]. }
  split; [| reflexivity].
  intros (Hin & m & Hm & Hlt & Hle). apply Huniq in Hm. subst m.
  destruct Hsb. apply Qcle_antisym.
  - apply Hbelow; assumption.
  - apply Hle; [apply Helem; right; left | exact Hba].
Qed.

Lemma relevel_releveled (hs : list heading) :
  Forall2 (Spec.releveled (map font_size hs)) hs (relevel hs).
Proof.
  unfold relevel.
  generalize (level_by_rank_font_to_level hs).
  generalize (font_to_level (unique_font_sizes hs)) as ftl.
  generalize (map font_size hs) as sizes. intros sizes ftl Hrank.
  induction hs as [|h hs IH]; constructor; [| exact IH].
  repeat split; try reflexivity; apply Hrank.
Qed.

Lemma relevel_level (hs : list heading) (h' : heading) :
  h' ∈ relevel hs ->
  level h' = str "H1" \/ level h' = str "H2" \/ level h' = str "H3".
Proof.
  unfold relevel. intros Hin. apply list_elem_of_fmap in Hin as (h & -> & _).
  simpl. rewrite font_to_level_lookup by apply unique_font_sizes_NoDup.
  destruct (unique_font_sizes hs) as [|a [|b r]];
    repeat case_decide; auto.
Qed.

Lemma refine_heading_hierarchy_eq (hs : list heading) :
  _refine_heading_hierarchy hs
  = Some (relevel hs,
          take 50 (map outline_entry (sorted_by Z.leb page false (relevel hs)))).
Proof.
  destruct hs as [|h hs]; [reflexivity |].
  unfold _refine_heading_hierarchy. fold (relevel (h :: hs)).
  cbv zeta.
  rewrite (list_sort_total Z.leb page_key (fun e => default 0 (page_key e))).
  - cbn [mbind option_bind]. rewrite sorted_by_map. reflexivity.
  - apply Forall_forall. intros e He.
    apply list_elem_of_fmap in He as (h' & -> & _). reflexivity.
Qed.

Lemma kept_relevel (hs : list heading) :
  take 50 (sorted_by Z.leb page false (relevel hs))
  = map (set_level (font_to_level (unique_font_sizes hs))) (Spec.kept hs).
Proof.
  unfold relevel, Spec.kept. rewrite sorted_by_map, <- fmap_take. reflexivity.
Qed.

Lemma kept_subseteq (hs : list heading) : Spec.kept hs ⊆ hs.
Proof.
  intros h Hh. apply (subseteq_take 50) in Hh.
  eapply elem_of_Permutation_proper; [| exact Hh].
  symmetry. apply sorted_by_perm.
Qed.

(** C1.  Refinement assigns every candidate its level from the ranking
    of the distinct font sizes of the whole list: a candidate of the
    largest size gets H1, one of the second-largest size gets H2, every
    other candidate gets H3; text, page and font size are untouched.  The
    outline consists of the entries of the candidates, sorted by page and
    cut after 50, and the entry of a candidate shows the candidate's text
    and page under ["text"] and ["page"] and, under ["level"], the level
    of the rank of the candidate's font size.  When all candidates have
    one size they all get H1, in the list and in the outline, and the
    empty list yields the empty outline. *)
Theorem refine_levels_by_rank (headings : list heading) :
  _refine_heading_hierarchy [] = Some ([], []) /\
  exists headings' outline,
    _refine_heading_hierarchy headings = Some (headings', outline)
    /\ outline
       = take 50 (map outline_entry (sorted_by Z.leb page false headings'))
    /\ Forall2 (Spec.releveled (map font_size headings)) headings headings'
    /\ Forall2 (fun k e =>
                  e !! "text"%string = Some (PStr (text k))
                  /\ e !! "page"%string = Some (PInt (page k))
                  /\ exists lvl,
                       e !! "level"%string = Some (PStr lvl)
                       /\ Spec.level_by_rank (map font_size headings)
                                             (font_size k) lvl)
               (Spec.kept headings) outline
    /\ ((exists s, forall h, h ∈ headings -> font_size h = s) ->
        (forall h', h' ∈ headings' -> level h' = str "H1")
        /\ (forall e, e ∈ outline ->
                      e !! "level"%string = Some (PStr (str "H1")))).
Proof.
  split; [reflexivity |].
  exists (relevel headings),
    (take 50 (map outline_entry
                (sorted_by Z.leb page false (relevel headings)))).
  split; [apply refine_heading_hierarchy_eq |].
  split; [reflexivity |].
  pose proof (relevel_releveled headings) as Hrel.
  split; [exact Hrel |].
  assert (Hentries :
    Forall2 (fun k e =>
               e !! "text"%string = Some (PStr (text k))
               /\ e !! "page"%string = Some (PInt (page k))
               /\ exists lvl,
                    e !! "level"%string = Some (PStr lvl)
                    /\ Spec.level_by_rank (map font_size headings)
                                          (font_size k) lvl)
            (Spec.kept headings)
            (take 50 (map outline_entry
                        (sorted_by Z.leb page false (relevel headings))))).
  { rewrite <- fmap_take, kept_relevel. rewrite !Forall2_fmap_r.
    apply Forall_Forall2_diag, Forall_forall. intros k _.
    split; [reflexivity |]. split; [reflexivity |].
    exists (default (str "H3")
              (font_to_level (unique_font_sizes headings) !! font_size k)).
    split; [reflexivity | apply level_by_rank_font_to_level]. }
  split; [exact Hentries |].
  intros [s Hs].
  assert (Hlargest : forall h, h ∈ headings ->
                       Spec.largest (map font_size headings) (font_size h)).
  { intros h Hh. split; [apply list_elem_of_fmap; eauto |].
    intros t Ht. apply list_elem_of_fmap in Ht as (h0 & -> & Hh0).
    rewrite (Hs h0 Hh0), (Hs h Hh). apply Qcle_refl. }
  split.
  - intros h' Hh'. apply list_elem_of_lookup in Hh' as [i Hi].
    destruct (Forall2_lookup_r _ _ _ _ _ Hrel Hi)
      as (h & Hh & _ & _ & _ & Hrank & _).
    apply Hrank, Hlargest. eapply list_elem_of_lookup_2, Hh.
  - intros e He. apply list_elem_of_lookup in He as [i Hi].
    destruct (Forall2_lookup_r _ _ _ _ _ Hentries Hi)
      as (k & Hk & _ & _ & lvl & Hlvl & Hrank & _).
    rewrite Hlvl. do 2 f_equal.
    apply Hrank, Hlargest, kept_subseteq. eapply list_elem_of_lookup_2, Hk.
Qed.

Lemma StronglySorted_take {A : Type} (R : A -> A -> Prop) (n : nat)
  (l : list A) :
  StronglySorted R l -> StronglySorted R (take n l).
Proof.
  intros H. revert n. induction H as [|x l Hs IH Hx]; intros [|n]; simpl;
    try constructor; [apply IH |].
  apply Forall_take, Hx.
Qed.

Lemma StronglySorted_map {A B : Type} (R : B -> B -> Prop) (f : A -> B)
  (l : list A) :
  StronglySorted (fun x y => R (f x) (f y)) l -> StronglySorted R (map f l).
Proof.
  induction 1 as [|x l Hs IH Hx]; simpl; constructor; [exact IH |].
  apply Forall_fmap. exact Hx.
Qed.

Lemma sorted_by_page_sorted (l : list heading) :
  StronglySorted (fun x y => page x <= page y)
                 (sorted_by Z.leb page false l).
Proof.
  eapply StronglySorted_weaken;
    [| apply (sorted_by_sorted Z.leb Z_leb_total Z_leb_trans)].
  intros x y H. apply Z.leb_le in H. exact H.
Qed.

(** C3.  The refined outline has at most 50 entries; the pages that its
    entries show under ["page"] are in non-decreasing order; its entries
    are, in order, those of the first 50 candidates of a rearrangement of
    the candidates that is sorted by page and in which the candidates of
    one page keep the order of detection; every entry has one of the
    levels H1, H2, H3, and its keys are ["level"], ["text"] and ["page"],
    so no entry carries a font size. *)
Theorem refine_outline_invariants (headings : list heading) :
  exists headings' outline arranged pages,
    _refine_heading_hierarchy headings = Some (headings', outline)
    /\ (length outline <= 50)%nat
    /\ Forall2 (fun e p => e !! "page"%string = Some (PInt p)) outline pages
    /\ StronglySorted Z.le pages
    /\ Permutation arranged headings
    /\ StronglySorted (fun a b => page a <= page b) arranged
    /\ (forall p, filter (fun h => page h = p) arranged
                  = filter (fun h => page h = p) headings)
    /\ Forall2 (fun h e =>
                  e !! "text"%string = Some (PStr (text h))
                  /\ e !! "page"%string = Some (PInt (page h)))
               (take 50 arranged) outline
    /\ Forall2 (fun h h' => text h' = text h /\ page h' = page h)
               headings headings'
    /\ Forall (fun e =>
                 (e !! "level"%string = Some (PStr (str "H1"))
                  \/ e !! "level"%string = Some (PStr (str "H2"))
                  \/ e !! "level"%string = Some (PStr (str "H3")))
                 /\ e !! "font_size"%string = None
                 /\ dom e = {[ "level"%string; "text"%string; "page"%string ]})
              outline.
Proof.
  set (arranged := sorted_by Z.leb page false headings).
  set (outline := take 50 (map outline_entry
                             (sorted_by Z.leb page false (relevel headings)))).
  assert (Houtline :
    outline
    = map outline_entry
        (map (set_level (font_to_level (unique_font_sizes headings)))
             (take 50 arranged))).
  { unfold outline. rewrite <- fmap_take, kept_relevel. reflexivity. }
  exists (relevel headings), outline, arranged, (map page (take 50 arranged)).
  split; [apply refine_heading_hierarchy_eq |].
  split; [unfold outline; rewrite length_take; lia |].
  split.
  { rewrite Houtline, !Forall2_fmap_l, Forall2_fmap_r.
    apply Forall_Forall2_diag, Forall_forall. intros h _. reflexivity. }
  split.
  { apply StronglySorted_map, StronglySorted_take, sorted_by_page_sorted. }
  split; [apply sorted_by_perm |].
  split; [apply sorted_by_page_sorted |].
  split.
  { intros p. apply (sorted_by_stable Z.leb Z.leb_refl). }
  split.
  { rewrite Houtline, !Forall2_fmap_r.
    apply Forall_Forall2_diag, Forall_forall. intros h _.
    split; reflexivity. }
  split.
  { eapply Forall2_impl; [apply relevel_releveled |].
    intros h h' (Ht & Hp & _). auto. }
  apply Forall_forall. intros e He.
  apply (subseteq_take 50), list_elem_of_fmap in He as (h' & -> & Hh').
  assert (Hin : h' ∈ relevel headings).
  { eapply elem_of_Permutation_proper; [| exact Hh'].
    symmetry. apply sorted_by_perm. }
  split; [| split].
  - change (outline_entry h' !! "level"%string) with (Some (PStr (level h'))).
    destruct (relevel_level _ _ Hin) as [-> | [-> | ->]]; auto.
  - reflexivity.
  - unfold outline_entry. rewrite !dom_insert_L, dom_singleton_L. set_solver.
Qed.

(** *** Running refinement again on its own outline *)

Lemma Forall2_and {A B : Type} (P Q : A -> B -> Prop) (l : list A)
  (k : list B) :
  Forall2 P l k -> Forall2 Q l k -> Forall2 (fun x y => P x y /\ Q x y) l k.
Proof.
  intros HP. induction HP as [|x y l k Hxy _ IH]; intros HQ;
    inversion HQ; subst; constructor; auto.
Qed.

(** Nothing is dropped from a list of at most 50 headings. *)
Lemma kept_all (hs : list heading) (h : heading) :
  (length hs <= 50)%nat -> h ∈ hs -> h ∈ Spec.kept hs.
Proof.
  intros Hlen Hh. unfold Spec.kept.
  rewrite take_ge by (rewrite sorted_by_length; exact Hlen).
  eapply elem_of_Permutation_proper; [apply sorted_by_perm | exact Hh].
Qed.

Lemma sorted_by_page_take_id (n : nat) (l : list heading) :
  sorted_by Z.leb page false (take n (sorted_by Z.leb page false l))
  = take n (sorted_by Z.leb page false l).
Proof.
  rewrite (sorted_by_stable_sort Z.leb page false (take n _)).
  apply stable_sort_sorted_id, StronglySorted_take.
  apply (sorted_by_sorted Z.leb Z_leb_total Z_leb_trans).
Qed.

(** C8 (amended).  When every font size of the candidates also occurs
    among the candidates that the outline keeps (as it does for every list
    of at most 50 headings, see [kept_all]), a second run on the
    outline's text and page pairs, each with its original font size,
    returns the same outline and assigns the same levels. *)
Theorem refine_rerun (headings : list heading) :
  (forall h, h ∈ headings ->
     exists k, k ∈ Spec.kept headings /\ font_size k = font_size h) ->
  Spec.rerun_agrees headings.
Proof.
  intros Hsizes headings' outline again Hrun [Hentries Hrestored].
  rewrite refine_heading_hierarchy_eq in Hrun. injection Hrun as <- <-.
  set (ftl := font_to_level (unique_font_sizes headings)).
  assert (Houtline :
            take 50 (map outline_entry
                       (sorted_by Z.leb page false (relevel headings)))
            = map outline_entry (map (set_level ftl) (Spec.kept headings))).
  { rewrite <- fmap_take, kept_relevel. reflexivity. }
  rewrite Houtline in Hentries |- *.
  assert (Hsame : Forall2 (fun k a => text a = text k /\ page a = page k
                                      /\ font_size a = font_size k)
                          (Spec.kept headings) again).
  { rewrite !Forall2_fmap_l in Hentries.
    eapply Forall2_impl; [exact (Forall2_and _ _ _ _ Hentries Hrestored) |].
    intros k a [[Ht Hp] Hs]. cbn in Ht, Hp.
    injection Ht as Ht. injection Hp as Hp. auto. }
  assert (Hunique : unique_font_sizes again = unique_font_sizes headings).
  { apply unique_font_sizes_ext. intros s.
    replace (map font_size again) with (map font_size (Spec.kept headings)).
    - rewrite !list_elem_of_fmap. split.
      + intros (k & -> & Hk). exists k. split; [reflexivity |].
        apply kept_subseteq, Hk.
      + intros (h & -> & Hh). destruct (Hsizes h Hh) as (k & Hk & Heq).
        exists k. auto.
    - clear -Hsame. induction Hsame as [|k a ks l (_ & _ & Hs) _ IH];
        [reflexivity |].
      cbn. rewrite Hs, IH. reflexivity. }
  assert (Hrelevel : relevel again = map (set_level ftl) (Spec.kept headings)).
  { unfold relevel. rewrite Hunique. fold ftl.
    clear -Hsame. induction Hsame as [|k a ks l (Ht & Hp & Hs) _ IH];
      [reflexivity |].
    cbn [map]. rewrite IH. f_equal.
    unfold set_level. rewrite Ht, Hp, Hs. reflexivity. }
  exists (map (set_level ftl) (Spec.kept headings)). split.
  - rewrite refine_heading_hierarchy_eq, Hrelevel. do 2 f_equal.
    unfold ftl. rewrite <- kept_relevel, sorted_by_page_take_id.
    apply take_ge. rewrite length_fmap, length_take. lia.
  - rewrite !Forall2_fmap_l, Forall2_fmap_r.
    apply Forall_Forall2_diag, Forall_forall. intros a _. reflexivity.
Qed.

Lemma refine_rerun_witness : Spec.rerun_agrees Spec.sample_headings.
Proof.
  apply refine_rerun. intros h Hh. exists h. split; [| reflexivity].
  apply kept_all; [vm_compute; lia | exact Hh].
Defined.

(** C8 as stated fails: with 51 candidates the larger heading on the last
    page is cut from the outline, the first run shows H2 for the fifty
    entries it keeps, and the second run, which sees one size only, gives
    them H1. *)
Lemma refine_rerun_crowded : ~ Spec.rerun_agrees Spec.crowded_headings.
Proof.
  intros Hagree.
  destruct (Hagree (relevel Spec.crowded_headings)
              (take 50 (map outline_entry
                 (sorted_by Z.leb page false (relevel Spec.crowded_headings))))
              (Spec.kept Spec.crowded_headings))
    as (again' & Hrun & _).
  - apply refine_heading_hierarchy_eq.
  - split.
    + rewrite <- fmap_take, kept_relevel.
      rewrite !Forall2_fmap_l.
      apply Forall_Forall2_diag, Forall_forall. intros a _. split; reflexivity.
    + apply Forall_Forall2_diag, Forall_forall. intros a _. reflexivity.
  - rewrite refine_heading_hierarchy_eq in Hrun.
    apply (f_equal (fun r => r ≫= fun '(_, outline) =>
                             outline !! 0%nat ≫= fun e => e !! "level"%string))
      in Hrun.
    vm_compute in Hrun. discriminate Hrun.
Qed.

(** ** Relevance scoring and ranking *)

Import RelevanceExtractor.

Section BackendFacts.
Context {embedding : Type} (cosine : embedding -> embedding -> option Qc).

Lemma keyword_relevance_state (self : t embedding) (query text : pystr) :
  snd (_calculate_keyword_relevance self query text) = self.
Proof.
  unfold _calculate_keyword_relevance.
  destruct query, text; try reflexivity.
  repeat case_match; reflexivity.
Qed.

Lemma semantic_relevance_state (self : t embedding) (query text : pystr) :
  snd (_calculate_semantic_relevance cosine self query text) = self.
Proof.
  unfold _calculate_semantic_relevance.
  case_match; [reflexivity | apply keyword_relevance_state].
Qed.

Lemma score_section_state (self : t embedding) (query : pystr) (section : section) :
  snd (score_section cosine self query section) = self.
Proof.
  unfold score_section.
  destruct (sentence_model self).
  - pose proof (semantic_relevance_state self query
                  (title section ++ str " " ++ content section)) as H.
    destruct (_calculate_semantic_relevance _ _ _ _). exact H.
  - pose proof (keyword_relevance_state self query
                  (title section ++ str " " ++ content section)) as H.
    destruct (_calculate_keyword_relevance _ _ _). exact H.
Qed.

(** The scoring loop scores every section with the extractor it
    started from. *)
Lemma score_sections_eq (self : t embedding) (query : pystr) (sections : list section) :
  score_sections cosine self query sections
  = (map (fun section => fst (score_section cosine self query section)) sections,
     self).
Proof.
  induction sections as [|section rest IH]; [reflexivity |].
  cbn [score_sections map].
  pose proof (score_section_state self query section) as Hstate.
  destruct (score_section cosine self query section) as [copy self'].
  cbn in Hstate. subst self'. rewrite IH. reflexivity.
Qed.

Lemma score_section_base (self : t embedding) (query : pystr) (section : section) :
  base (fst (score_section cosine self query section)) = section.
Proof.
  unfold score_section. repeat case_match; reflexivity.
Qed.

Lemma rank_sections_eq (self : t embedding) (sections : list section)
  (persona job_to_be_done : pystr) :
  _rank_sections_by_relevance cosine self sections persona job_to_be_done
  = (sorted_by Qc_leb relevance_score true
       (fst (score_sections cosine self
               (persona ++ str " " ++ job_to_be_done) sections)),
     self).
Proof.
  destruct sections as [|section rest]; [reflexivity |].
  unfold _rank_sections_by_relevance.
  rewrite score_sections_eq. reflexivity.
Qed.

(** C5.  The ranker returns a rearrangement of the scored sections (the
    input sections, each with its relevance score); the scores along the
    result never increase; entries with equal scores are in the order of
    the input. *)
Theorem rank_sections_sorted_stable (self : t embedding) (sections : list section)
  (persona job_to_be_done : pystr) :
  let scored :=
    fst (score_sections cosine self
           (persona ++ str " " ++ job_to_be_done) sections) in
  let ranked :=
    fst (_rank_sections_by_relevance cosine self sections
           persona job_to_be_done) in
  map base scored = sections
  /\ Permutation ranked scored
  /\ Permutation (map base ranked) sections
  /\ StronglySorted
       (fun x y => (relevance_score y <= relevance_score x)%Qc) ranked
  /\ forall score,
       filter (fun x => relevance_score x = score) ranked
       = filter (fun x => relevance_score x = score) scored.
Proof.
  intros scored ranked.
  assert (Hbase : map base scored = sections).
  { unfold scored. rewrite score_sections_eq. cbn [fst].
    clear. induction sections as [|section rest IH]; [reflexivity |].
    cbn [map]. rewrite score_section_base, IH. reflexivity. }
  assert (Hperm : Permutation ranked scored).
  { unfold ranked. rewrite rank_sections_eq. apply sorted_by_perm. }
  split; [exact Hbase |]. split; [exact Hperm |].
  split; [rewrite <- Hbase; apply Permutation_map, Hperm |].
  unfold ranked. rewrite rank_sections_eq. cbn [fst]. fold scored. split.
  - eapply StronglySorted_weaken;
      [| apply (sorted_by_sorted Qc_leb Qc_leb_total Qc_leb_trans)].
    intros x y H. apply Qc_leb_spec in H. exact H.
  - intros score. apply (sorted_by_stable Qc_leb Qc_leb_refl).
Qed.

End BackendFacts.

Section FallbackFacts.
Context {embedding : Type} (cosine : embedding -> embedding -> option Qc).

(** C9.  When the embedding model is configured and encoding the query
    or the text fails, the semantic relevance call returns the keyword
    relevance of the same query and text and leaves the extractor as it
    was: the model is still configured, and a later call whose encoding
    succeeds returns the cosine of the embeddings. *)
Theorem semantic_relevance_fallback (self : t embedding)
  (model : sentence_transformer embedding) (query text : pystr) :
  sentence_model self = Some model ->
  encode model query = None \/ encode model text = None ->
  let result := _calculate_semantic_relevance cosine self query text in
  fst result = fst (_calculate_keyword_relevance self query text)
  /\ snd result = self
  /\ sentence_model (snd result) = Some model
  /\ forall query' text' query_embedding text_embedding similarity,
       encode model query' = Some query_embedding ->
       encode model text' = Some text_embedding ->
       cosine query_embedding text_embedding = Some similarity ->
       fst (_calculate_semantic_relevance cosine (snd result) query' text')
       = similarity.
Proof.
  intros Hmodel Hfail result.
  assert (Hstate : snd result = self) by apply semantic_relevance_state.
  split.
  - unfold result, _calculate_semantic_relevance. rewrite Hmodel. cbn.
    destruct Hfail as [-> | Htext]; [reflexivity |].
    destruct (encode model query); cbn; [rewrite Htext |]; reflexivity.
  - split; [exact Hstate |]. rewrite Hstate. split; [exact Hmodel |].
    intros query' text' qe te similarity Hq Ht Hcos.
    unfold _calculate_semantic_relevance. rewrite Hmodel. cbn.
    rewrite Hq. cbn. rewrite Ht. cbn. rewrite Hcos. reflexivity.
Qed.

Lemma StronglySorted_all {A : Type} (R : A -> A -> Prop) (l : list A) :
  (forall x y, R x y) -> StronglySorted R l.
Proof.
  intros HR. induction l as [|x l IH]; constructor; [exact IH |].
  apply Forall_forall. intros y _. apply HR.
Qed.

(** C10.  Without the tokenizer model, keyword extraction returns the
    empty list for every text, the keyword relevance of every query and
    text is 0, and the ranking under the keyword strategy returns the
    sections in their original order (each with score 0). *)
Theorem keyword_strategy_without_nlp (self : t embedding) :
  TextProcessor.nlp (text_processor self) = None ->
  (forall text max_keywords,
     TextProcessor.extract_keywords (text_processor self) text max_keywords
     = [])
  /\ (forall query text,
        _calculate_keyword_relevance self query text = (0%Qc, self))
  /\ (sentence_model self = None ->
      forall sections persona job_to_be_done,
        _rank_sections_by_relevance cosine self sections
          persona job_to_be_done
        = (map (fun section =>
                  {| base := section; relevance_score := 0%Qc |}) sections,
           self)).
Proof.
  intros Hnlp.
  assert (Hkw : forall text max_keywords,
            TextProcessor.extract_keywords (text_processor self) text
              max_keywords = []).
  { intros text n. unfold TextProcessor.extract_keywords. rewrite Hnlp.
    reflexivity. }
  assert (Hrel : forall query text,
            _calculate_keyword_relevance self query text = (0%Qc, self)).
  { intros query text. unfold _calculate_keyword_relevance, keyword_set.
    destruct query, text; try reflexivity.
    rewrite !Hkw. reflexivity. }
  split; [exact Hkw |]. split; [exact Hrel |].
  intros Hmodel sections persona job.
  rewrite rank_sections_eq, score_sections_eq. cbn [fst]. f_equal.
  assert (Hscored :
            map (fun section =>
                   fst (score_section cosine self
                          (persona ++ str " " ++ job) section)) sections
            = map (fun section =>
                     {| base := section; relevance_score := 0%Qc |}) sections).
  { apply map_ext. intros section. unfold score_section.
    rewrite Hmodel, Hrel. reflexivity. }
  rewrite Hscored, sorted_by_stable_sort.
  apply stable_sort_sorted_id.
  apply StronglySorted_map, StronglySorted_all. intros x y. reflexivity.
Qed.

End FallbackFacts.

Lemma semantic_relevance_fallback_witness :
  _calculate_semantic_relevance (fun _ _ => Some 1%Qc)
    Spec.extractor_with_model (str "annual revenue") []
  = (0%Qc, Spec.extractor_with_model).
Proof.
  destruct (semantic_relevance_fallback (fun _ _ => Some 1%Qc)
              Spec.extractor_with_model Spec.blank_shy_model
              (str "annual revenue") [])
    as (Hscore & Hstate & _).
  - reflexivity.
  - right. reflexivity.
  - rewrite (surjective_pairing (_calculate_semantic_relevance _ _ _ _)).
    rewrite Hscore, Hstate. reflexivity.
Defined.

Lemma keyword_strategy_without_nlp_witness :
  TextProcessor.extract_keywords
    (text_processor Spec.extractor_without_nlp) (str "revenue growth") 10
  = [].
Proof.
  destruct (keyword_strategy_without_nlp (fun _ _ => Some 1%Qc)
              Spec.extractor_without_nlp) as (Hkw & _).
  - reflexivity.
  - apply Hkw.
Defined.

(** ** Keyword relevance *)

Lemma counter_add_keys (w : pystr) (c : list (pystr * nat)) (x : pystr) :
  x ∈ map fst (TextProcessor.counter_add w c) -> x = w \/ x ∈ map fst c.
Proof.
  induction c as [|[w' n] c IH]; cbn.
  - intros H. apply list_elem_of_singleton in H. auto.
  - destruct (decide (w = w')) as [-> | Hne]; cbn; intros H.
    + auto.
    + apply elem_of_cons in H as [-> | H]; [right; left |].
      destruct (IH H) as [-> | Hx]; [auto | right; right; exact Hx].
Qed.

Lemma Counter_keys (ws : list pystr) (x : pystr) :
  x ∈ map fst (TextProcessor.Counter ws) -> x ∈ ws.
Proof.
  unfold TextProcessor.Counter.
  assert (H : forall c, x ∈ map fst (foldl (fun c w => TextProcessor.counter_add w c) c ws)
                        -> x ∈ map fst c \/ x ∈ ws).
  { induction ws as [|w ws IH]; intros c; cbn; [auto |].
    intros Hx. destruct (IH _ Hx) as [Hc | Hws]; [| right; right; exact Hws].
    destruct (counter_add_keys _ _ _ Hc) as [-> | Hc']; [right; left | auto]. }
  intros Hx. destruct (H [] Hx) as [Hnil | Hws]; [inversion Hnil | exact Hws].
Qed.

(** Every extracted keyword is the lower-cased lemma of a token of the
    pipeline that is alphabetic, is neither a stop word nor punctuation
    and has more than two characters; at most [max_keywords] are
    returned. *)
Lemma extract_keywords_sound (self : TextProcessor.t) (text : pystr)
  (max_keywords : nat) (w : pystr) :
  w ∈ TextProcessor.extract_keywords self text max_keywords ->
  exists pipeline tok,
    TextProcessor.nlp self = Some pipeline /\ tok ∈ pipeline text
    /\ TextProcessor.is_alpha tok = true /\ TextProcessor.is_stop tok = false
    /\ TextProcessor.is_punct tok = false
    /\ (2 < length (TextProcessor.text tok))%nat
    /\ w = lower (TextProcessor.lemma_ tok).
Proof.
  unfold TextProcessor.extract_keywords.
  destruct (TextProcessor.nlp self) as [pipeline|]; [| intros H; inversion H].
  destruct text as [|c text]; [intros H; inversion H |].
  intros Hw. exists pipeline.
  assert (Hin : w ∈ map (fun tok => lower (TextProcessor.lemma_ tok))
                  (filter (fun tok => TextProcessor.is_keyword tok = true)
                          (pipeline (c :: text)))).
  { apply Counter_keys.
    apply list_elem_of_fmap in Hw as (kv & -> & Hkv).
    apply list_elem_of_fmap. exists kv. split; [reflexivity |].
    apply (subseteq_take max_keywords) in Hkv.
    eapply elem_of_Permutation_proper; [| exact Hkv].
    symmetry. apply sorted_by_perm. }
  apply list_elem_of_fmap in Hin as (tok & -> & Htok).
  apply list_elem_of_filter in Htok as [Hkey Htok].
  exists tok. unfold TextProcessor.is_keyword in Hkey.
  rewrite !andb_true_iff, !negb_true_iff, Nat.ltb_lt in Hkey.
  tauto.
Qed.

Lemma extract_keywords_length (self : TextProcessor.t) (text : pystr)
  (max_keywords : nat) :
  (length (TextProcessor.extract_keywords self text max_keywords)
   <= max_keywords)%nat.
Proof.
  unfold TextProcessor.extract_keywords, TextProcessor.most_common.
  repeat case_match; cbn; try lia.
  rewrite length_map, length_take. lia.
Qed.

Lemma Qc_of_nat_nonzero (n : nat) : n <> 0%nat -> Qc_of_nat n <> 0%Qc.
Proof.
  intros Hn H. unfold Qc_of_nat in H.
  apply Q2Qc_eq_iff in H. unfold Qeq in H. cbn in H. lia.
Qed.

Lemma Qc_div_same (x : Qc) : x <> 0%Qc -> (x / x)%Qc = 1%Qc.
Proof. intros Hx. unfold Qcdiv. apply Qcmult_inv_r, Hx. Qed.

Lemma Qc_div_zero (x : Qc) : (Qc_of_nat 0 / x)%Qc = 0%Qc.
Proof. unfold Qcdiv. apply Qcmult_0_l. Qed.

Section KeywordFacts.
Context {embedding : Type}.

Lemma keyword_set_nil (self : t embedding) : keyword_set self [] = ∅.
Proof.
  unfold keyword_set, TextProcessor.extract_keywords.
  destruct (TextProcessor.nlp (text_processor self)); reflexivity.
Qed.

(** With a query that has keywords the result is the quotient of the
    sizes of intersection and union. *)
Lemma keyword_relevance_quotient (self : t embedding) (query text : pystr) :
  keyword_set self query <> ∅ ->
  fst (_calculate_keyword_relevance self query text)
  = (Qc_of_nat (size (keyword_set self query ∩ keyword_set self text))
     / Qc_of_nat (size (keyword_set self query ∪ keyword_set self text)))%Qc.
Proof.
  intros Hq.
  assert (Hquery : query <> []) by (intros ->; apply Hq, keyword_set_nil).
  assert (Hunion : size (keyword_set self query ∪ keyword_set self text)
                   <> 0%nat).
  { intros H. apply size_empty_iff in H. apply Hq. set_solver. }
  unfold _calculate_keyword_relevance.
  destruct query as [|c query]; [congruence |].
  destruct text as [|d text].
  - cbn [fst]. rewrite keyword_set_nil.
    rewrite (right_absorb_L ∅ (∩)), size_empty, Qc_div_zero. reflexivity.
  - rewrite decide_False by exact Hq.
    destruct (0 <? _)%nat eqn:Hpos; [reflexivity |].
    apply Nat.ltb_ge in Hpos. lia.
Qed.

Lemma keyword_relevance_no_query_keywords (self : t embedding)
  (query text : pystr) :
  keyword_set self query = ∅ ->
  fst (_calculate_keyword_relevance self query text) = 0%Qc.
Proof.
  intros Hq. unfold _calculate_keyword_relevance.
  destruct query, text; try reflexivity.
  rewrite decide_True by exact Hq. reflexivity.
Qed.

(** C4 (amended).  The keyword relevance is the Jaccard quotient of the
    keyword sets of query and text whenever the query has a keyword; the
    keywords are lower-cased lemmas of alphabetic tokens that are not
    stop words, not punctuation and longer than two characters; the
    score is 0 when one of the two sets is empty and when the sets are
    disjoint; it is 1 when the two texts are identical and have at least
    one keyword. *)
Theorem keyword_relevance_jaccard (self : t embedding) (query text : pystr) :
  let query_keywords := keyword_set self query in
  let text_keywords := keyword_set self text in
  let score := fst (_calculate_keyword_relevance self query text) in
  (query_keywords <> ∅ ->
     score = (Qc_of_nat (size (query_keywords ∩ text_keywords))
              / Qc_of_nat (size (query_keywords ∪ text_keywords)))%Qc)
  /\ (forall w, w ∈ text_keywords ->
        exists pipeline tok,
          TextProcessor.nlp (text_processor self) = Some pipeline
          /\ tok ∈ pipeline (lower text)
          /\ TextProcessor.is_alpha tok = true
          /\ TextProcessor.is_stop tok = false
          /\ TextProcessor.is_punct tok = false
          /\ (2 < length (TextProcessor.text tok))%nat
          /\ w = lower (TextProcessor.lemma_ tok))
  /\ (query_keywords = ∅ \/ text_keywords = ∅ -> score = 0%Qc)
  /\ (query_keywords ## text_keywords -> score = 0%Qc)
  /\ (query = text -> query_keywords <> ∅ -> score = 1%Qc).
Proof.
  intros query_keywords text_keywords score.
  assert (Hdisjoint : query_keywords ## text_keywords -> score = 0%Qc).
  { intros Hd. destruct (decide (query_keywords = ∅)) as [Hq | Hq].
    - apply keyword_relevance_no_query_keywords, Hq.
    - unfold score. rewrite keyword_relevance_quotient by exact Hq.
      fold query_keywords text_keywords.
      replace (query_keywords ∩ text_keywords) with (∅ : gset pystr)
        by (symmetry; apply disjoint_intersection_L, Hd).
      rewrite size_empty. apply Qc_div_zero. }
  split; [apply keyword_relevance_quotient |].
  split.
  { intros w Hw. apply elem_of_list_to_set in Hw.
    apply extract_keywords_sound in Hw. exact Hw. }
  split.
  { intros [Hq | Ht]; [apply keyword_relevance_no_query_keywords, Hq |].
    apply Hdisjoint. rewrite Ht. set_solver. }
  split; [exact Hdisjoint |].
  intros <- Hq. unfold score. rewrite keyword_relevance_quotient by exact Hq.
  fold query_keywords.
  rewrite (idemp_L (∩) query_keywords), (idemp_L (∪) query_keywords).
  apply Qc_div_same, Qc_of_nat_nonzero.
  intros H. apply size_empty_iff in H. apply Hq. set_solver.
Qed.

End KeywordFacts.

(** C4 as stated fails: identical non-empty texts without a keyword score
    0, both when the tokenizer model is missing and when the text
    consists of stop words. *)
Lemma keyword_relevance_identical_zero :
  fst (_calculate_keyword_relevance Spec.extractor_without_nlp
         (str "revenue growth") (str "revenue growth")) <> 1%Qc
  /\ fst (_calculate_keyword_relevance Spec.extractor_with_words
            (str "to be") (str "to be")) <> 1%Qc
  /\ fst (_calculate_keyword_relevance Spec.extractor_with_words
            (str "revenue growth") (str "revenue growth")) = 1%Qc.
Proof.
  split; [| split].
  - vm_compute. discriminate.
  - vm_compute. discriminate.
  - apply Qc_is_canon. vm_compute. reflexivity.
Qed.

(** ** The summarizer *)

Lemma flat_map_nil {A B : Type} (f : A -> list B) (l : list A) :
  flat_map f l = [] <-> Forall (fun x => f x = []) l.
Proof.
  induction l as [|x l IH]; cbn.
  - split; [constructor | reflexivity].
  - rewrite Forall_cons, <- IH. split.
    + intros H. apply app_eq_nil in H. exact H.
    + intros [-> ->]. reflexivity.
Qed.

Lemma join_nil (sep : pystr) (parts : list pystr) :
  Forall (fun p => p <> []) parts -> join sep parts = [] -> parts = [].
Proof.
  intros Hparts. destruct Hparts as [|p parts Hp _]; [reflexivity |].
  cbn. destruct parts; intros H; [congruence |].
  apply app_eq_nil in H as [H _]. congruence.
Qed.

Lemma truncate_length (refined : pystr) :
  let out := if (300 <? length refined)%nat
             then take 300 refined ++ str "..." else refined in
  (length out <= 303)%nat
  /\ ((length out <= 300)%nat /\ out = refined
      \/ (300 < length refined)%nat
         /\ out = take 300 refined ++ str "..." /\ length out = 303%nat)
  /\ (out = [] <-> refined = []).
Proof.
  cbn zeta. destruct (300 <? length refined)%nat eqn:Hlen.
  - apply Nat.ltb_lt in Hlen.
    assert (Hout : length (take 300 refined ++ str "...") = 303%nat).
    { rewrite length_app, length_take.
      change (length (str "...")) with 3%nat. lia. }
    split; [lia |]. split; [right; auto |].
    split; intros H.
    + rewrite H in Hout. discriminate.
    + rewrite H in Hlen. cbn in Hlen. lia.
  - apply Nat.ltb_ge in Hlen. split; [lia |]. split; [left; auto |]. tauto.
Qed.

(** C6 (amended).  The summary has at most 300 characters, or it is the
    first 300 characters of the joined fragments followed by ["..."], 303
    characters in all.  It is empty when the content is empty; for any
    content it is empty exactly when the content is empty or no fragment
    is kept: none of the first five fragments is longer than 20
    characters after trimming and mentions the persona or the job, and
    neither of the first two fragments is longer than 20 characters after
    trimming. *)
Theorem create_refined_text_bounds (content persona job_to_be_done : pystr) :
  let out := _create_refined_text content persona job_to_be_done in
  let sentences := split_on "."%char content in
  (length out <= 303)%nat
  /\ ((length out <= 300)%nat
      \/ exists body, length body = 300%nat /\ out = body ++ str "...")
  /\ (content = [] -> out = [])
  /\ (out = [] <->
      content = []
      \/ (Forall (fun s => ~ ((20 < length (strip s))%nat
                              /\ is_relevant (strip s) persona job_to_be_done = true))
                 (take 5 sentences)
          /\ Forall (fun s => (length (strip s) <= 20)%nat) (take 2 sentences))).
Proof.
  intros out sentences.
  destruct content as [|c content].
  { cbn. repeat split; auto; lia. }
  set (relevant := flat_map
         (fun sentence =>
            if (20 <? length (strip sentence))%nat
               && is_relevant (strip sentence) persona job_to_be_done
            then [strip sentence] else []) (take 5 sentences)).
  set (fallback := flat_map
         (fun s => if (20 <? length (strip s))%nat then [strip s] else [])
         (take 2 sentences)).
  set (chosen := match relevant with [] => fallback | _ => relevant end).
  assert (Hout : out = if (300 <? length (join (str ". ") (take 3 chosen)))%nat
                       then take 300 (join (str ". ") (take 3 chosen)) ++ str "..."
                       else join (str ". ") (take 3 chosen)) by reflexivity.
  destruct (truncate_length (join (str ". ") (take 3 chosen)))
    as (Hmax & Hcases & Hempty).
  cbn zeta in Hmax, Hcases, Hempty. rewrite <- Hout in Hmax, Hcases, Hempty.
  assert (Hrelevant : Forall (fun p : pystr => p <> []) relevant).
  { apply Forall_forall. intros p Hp. apply list_elem_of_In, in_flat_map in Hp.
    destruct Hp as (s & _ & Hp).
    destruct (20 <? length (strip s))%nat eqn:Hlen; [| inversion Hp].
    apply Nat.ltb_lt in Hlen. destruct (is_relevant _ _ _); [| inversion Hp].
    destruct Hp as [<- | []]. intros H. rewrite H in Hlen. cbn in Hlen. lia. }
  assert (Hfallback : Forall (fun p : pystr => p <> []) fallback).
  { apply Forall_forall. intros p Hp. apply list_elem_of_In, in_flat_map in Hp.
    destruct Hp as (s & _ & Hp).
    destruct (20 <? length (strip s))%nat eqn:Hlen; [| inversion Hp].
    apply Nat.ltb_lt in Hlen.
    destruct Hp as [<- | []]. intros H. rewrite H in Hlen. cbn in Hlen. lia. }
  assert (Hchosen : Forall (fun p : pystr => p <> []) chosen).
  { unfold chosen. destruct relevant; assumption. }
  assert (Hnil : out = [] <-> relevant = [] /\ fallback = []).
  { rewrite Hempty. split.
    - intros H. apply join_nil in H; [| apply Forall_take, Hchosen].
      assert (Hc : chosen = []) by (destruct chosen; [reflexivity | discriminate]).
      unfold chosen in Hc. destruct relevant; [auto | discriminate].
    - intros [Hr Hf]. unfold chosen. rewrite Hr, Hf. reflexivity. }
  split; [exact Hmax |]. split.
  { destruct Hcases as [[Hle _] | (Hlong & Heq & _)]; [left; exact Hle |].
    right. eexists. split; [| exact Heq]. rewrite length_take. lia. }
  split; [discriminate |].
  rewrite Hnil. unfold relevant, fallback. rewrite !flat_map_nil. split.
  - intros [Hr Hf]. right. split.
    + eapply Forall_impl; [exact Hr |]. cbn beta. intros s Hs [Hlen Hrel].
      apply Nat.ltb_lt in Hlen. rewrite Hlen, Hrel in Hs. discriminate.
    + eapply Forall_impl; [exact Hf |]. cbn beta. intros s Hs.
      destruct (20 <? length (strip s))%nat eqn:Hlen; [discriminate |].
      apply Nat.ltb_ge in Hlen. exact Hlen.
  - intros [H | [Hr Hf]]; [discriminate |]. split.
    + eapply Forall_impl; [exact Hr |]. cbn beta. intros s Hs.
      destruct (20 <? length (strip s))%nat eqn:Hlen; [| reflexivity].
      destruct (is_relevant _ _ _) eqn:Hrel; [| reflexivity].
      destruct Hs. apply Nat.ltb_lt in Hlen. auto.
    + eapply Forall_impl; [exact Hf |]. cbn beta. intros s Hs.
      destruct (20 <? length (strip s))%nat eqn:Hlen; [| reflexivity].
      apply Nat.ltb_lt in Hlen. lia.
Qed.

(** C6 as stated fails: a non-empty content without a fragment of more
    than 20 characters yields the empty summary. *)
Lemma create_refined_text_empty_output :
  ~ (_create_refined_text (str "Hi. Bye.") (str "Analyst") (str "Review") = []
     <-> str "Hi. Bye." = []).
Proof.
  intros [H _]. specialize (H eq_refl). discriminate H.
Qed.

(** ** Page segmentation *)




Section SegmentFacts.
Context {embedding : Type}.

Lemma find_headings_in_page_eq (self : t embedding)
  (formatted_text : list span) :
  _find_headings_in_page self formatted_text
  = map (fun item => {| h_text := TextProcessor.clean_text (text item);
                        h_font_size := font_size item;
                        h_level := str "H2" |})
        (Spec.accepted formatted_text).
Proof.
  unfold _find_headings_in_page, Spec.accepted.
  destruct formatted_text as [|item0 rest]; [reflexivity |].
  change (match map font_size (item0 :: rest) with
          | [] => Q2Qc 12
          | _ => (foldl Qcplus 0 (map font_size (item0 :: rest))
                  / Qc_of_nat (length (map font_size (item0 :: rest))))%Qc
          end)
    with (foldl Qcplus 0 (map font_size (item0 :: rest))
          / Qc_of_nat (length (map font_size (item0 :: rest))))%Qc.
  rewrite length_map. fold (Spec.page_average (item0 :: rest)).
  generalize (Spec.page_average (item0 :: rest)) as avg. intros avg.
  generalize (item0 :: rest) as items. intros items.
  induction items as [|item items IH]; [reflexivity |].
  cbn [flat_map List.filter map].
  destruct (TextProcessor.is_likely_heading _ _ _); cbn [app map];
    rewrite IH; reflexivity.
Qed.


End SegmentFacts.

(** ** The examples of the test suite *)

Example refine_sample_headings :
  option_map
    (fun r => map (fun e => (e !! "level"%string, e !! "page"%string)) (snd r))
    (_refine_heading_hierarchy Spec.sample_headings)
  = Some [ (Some (PStr (str "H1")), Some (PInt 1));
           (Some (PStr (str "H2")), Some (PInt 1));
           (Some (PStr (str "H3")), Some (PInt 2));
           (Some (PStr (str "H1")), Some (PInt 3)) ].
Proof. vm_compute. reflexivity. Qed.

Example keyword_relevance_overlap :
  fst (_calculate_keyword_relevance Spec.extractor_with_words
         (str "financial analysis revenue growth")
         (str "The company showed strong revenue growth"))
  = Q2Qc (2 # 7).
Proof. apply Qc_is_canon. vm_compute. reflexivity. Qed.

Example keyword_relevance_no_match :
  fst (_calculate_keyword_relevance Spec.extractor_with_words
         (str "machine learning algorithms")
         (str "The weather was sunny and bright today"))
  = 0%Qc.
Proof. apply Qc_is_canon. vm_compute. reflexivity. Qed.

Example page_without_headings :
  map title
      (page_sections Spec.extractor_with_words (str "report.pdf") 0 []
                     (str "plain words only"))
  = [str "Page 1"].
Proof. vm_compute. reflexivity. Qed.

(** * Further properties of the modelled code *)

(** ** Trimming *)

Lemma lstrip_decomp (s : pystr) :
  exists ws, Forall (fun c => isspace c = true) ws /\ s = ws ++ lstrip s.
Proof.
  induction s as [|c s IH]; [exists []; split; [constructor | reflexivity] |].
  cbn. destruct (isspace c) eqn:Hc.
  - destruct IH as (ws & Hws & Heq). exists (c :: ws). split.
    + constructor; assumption.
    + cbn. rewrite <- Heq. reflexivity.
  - exists []. split; [constructor | reflexivity].
Qed.

Lemma lstrip_head (s : pystr) (c : ascii) (t : pystr) :
  lstrip s = c :: t -> isspace c = false.
Proof.
  induction s as [|d s IH]; cbn; [discriminate |].
  destruct (isspace d) eqn:Hd; [exact IH |].
  intros H. injection H as -> _. exact Hd.
Qed.

Lemma lstrip_fixed (c : ascii) (t : pystr) :
  isspace c = false -> lstrip (c :: t) = c :: t.
Proof. intros H. cbn. rewrite H. reflexivity. Qed.

Lemma lstrip_idempotent (s : pystr) : lstrip (lstrip s) = lstrip s.
Proof.
  destruct (lstrip s) as [|c t] eqn:H; [reflexivity |].
  apply lstrip_fixed. eapply lstrip_head, H.
Qed.

Lemma lstrip_Forall (P : ascii -> Prop) (s : pystr) :
  Forall P s -> Forall P (lstrip s).
Proof.
  destruct (lstrip_decomp s) as (ws & _ & Heq). intros H.
  rewrite Heq in H. apply Forall_app in H. apply H.
Qed.

Lemma lstrip_length (s : pystr) : (length (lstrip s) <= length s)%nat.
Proof.
  destruct (lstrip_decomp s) as (ws & _ & Heq).
  rewrite Heq at 2. rewrite length_app. lia.
Qed.

Lemma strip_Forall (P : ascii -> Prop) (s : pystr) :
  Forall P s -> Forall P (strip s).
Proof.
  intros H. unfold strip, rstrip.
  apply Forall_rev, lstrip_Forall, Forall_rev, lstrip_Forall, H.
Qed.

Lemma strip_length (s : pystr) : (length (strip s) <= length s)%nat.
Proof.
  unfold strip, rstrip. rewrite length_rev.
  etransitivity; [apply lstrip_length |]. rewrite length_rev.
  apply lstrip_length.
Qed.

Lemma rstrip_keeps_head (c : ascii) (t : pystr) :
  isspace c = false -> exists t', rstrip (c :: t) = c :: t'.
Proof.
  intros Hc. unfold rstrip.
  destruct (lstrip_decomp (rev (c :: t))) as (ws & Hws & Heq).
  apply (f_equal (@rev ascii)) in Heq.
  rewrite rev_involutive, rev_app_distr in Heq.
  destruct (rev (lstrip (rev (c :: t)))) as [|d t'] eqn:Hrev.
  - cbn in Heq. assert (Hin : c ∈ rev ws) by (rewrite <- Heq; left).
    apply list_elem_of_In, in_rev, list_elem_of_In in Hin.
    rewrite Forall_forall in Hws.
    rewrite (Hws c Hin) in Hc. discriminate.
  - cbn in Heq. injection Heq as -> _. eauto.
Qed.

(** Python's [strip] is idempotent: what it returns neither starts nor
    ends with white space. *)
Lemma strip_idempotent (s : pystr) : strip (strip s) = strip s.
Proof.
  unfold strip.
  assert (Hr : forall a, rstrip (rstrip a) = rstrip a).
  { intros a. unfold rstrip. rewrite rev_involutive, lstrip_idempotent.
    reflexivity. }
  assert (Hl : lstrip (rstrip (lstrip s)) = rstrip (lstrip s)).
  { destruct (lstrip s) as [|c t] eqn:H; [reflexivity |].
    pose proof (lstrip_head _ _ _ H) as Hc.
    destruct (rstrip_keeps_head c t Hc) as (t' & ->).
    apply lstrip_fixed, Hc. }
  rewrite Hl. apply Hr.
Qed.

(** ** [clean_text] *)

Lemma sub_whitespace_runs_space (in_run : bool) (s : pystr) :
  Forall (fun c => isspace c = true -> c = " "%char)
         (TextProcessor.sub_whitespace_runs in_run s).
Proof.
  revert in_run. induction s as [|c s IH]; intros in_run; cbn;
    [constructor |].
  destruct (isspace c) eqn:Hc.
  - destruct in_run; [apply IH |]. constructor; [reflexivity | apply IH].
  - constructor; [congruence | apply IH].
Qed.

Lemma sub_whitespace_runs_length (in_run : bool) (s : pystr) :
  (length (TextProcessor.sub_whitespace_runs in_run s) <= length s)%nat.
Proof.
  revert in_run. induction s as [|c s IH]; intros in_run; cbn; [lia |].
  pose proof (IH true). pose proof (IH false).
  destruct (isspace c); [destruct in_run |]; cbn [length]; lia.
Qed.

(** X1.  The cleaned text neither starts nor ends with white space; every
    character of it is a word character, a blank or one of [.,!?:;-()],
    so tabs, line feeds and all other characters are gone; and it is no
    longer than the text. *)
Theorem clean_text_shape (text : pystr) :
  let cleaned := TextProcessor.clean_text text in
  strip cleaned = cleaned
  /\ Forall (fun c => re_word c = true \/ c = " "%char
                      \/ c ∈ str ".,!?:;-()") cleaned
  /\ (length cleaned <= length text)%nat.
Proof.
  destruct text as [|c0 text]; [repeat split; constructor |].
  cbn zeta. unfold TextProcessor.clean_text.
  set (collapsed := TextProcessor.sub_whitespace_runs false (c0 :: text)).
  split; [apply strip_idempotent |]. split.
  - apply strip_Forall, Forall_fmap.
    eapply Forall_impl; [apply (sub_whitespace_runs_space false (c0 :: text)) |].
    fold collapsed. cbn beta. intros c Hspace.
    unfold compose, TextProcessor.is_special. cbn beta.
    destruct (re_word c) eqn:Hw; cbn [orb negb]; [left; exact Hw |].
    destruct (isspace c) eqn:Hs; cbn [orb negb];
      [right; left; apply Hspace; reflexivity |].
    destruct (existsb (Ascii.eqb c) (str ".,!?:;-()")) eqn:Hp; cbn [negb].
    + right; right. apply existsb_exists in Hp as (d & Hd & Heq).
      apply Ascii.eqb_eq in Heq. subst d. apply list_elem_of_In, Hd.
    + right; left. reflexivity.
  - etransitivity; [apply strip_length |]. rewrite length_map.
    apply sub_whitespace_runs_length.
Qed.

(** ** Rational arithmetic *)

Lemma Qcinv_nonneg (x : Qc) : (0 <= x)%Qc -> (0 <= / x)%Qc.
Proof.
  unfold Qcle, Qcinv. intros H.
  change (0 <= Qred (/ this x))%Q. rewrite Qred_correct.
  apply Qinv_le_0_compat, H.
Qed.

Lemma Qcdiv_le_compat (x y z : Qc) :
  (0 < z)%Qc -> (x <= y)%Qc -> (x / z <= y / z)%Qc.
Proof.
  intros Hz Hxy. unfold Qcdiv.
  apply Qcmult_le_compat_r; [exact Hxy |].
  apply Qcinv_nonneg, Qclt_le_weak, Hz.
Qed.

Lemma Qc_of_nat_le (a b : nat) :
  (a <= b)%nat -> (Qc_of_nat a <= Qc_of_nat b)%Qc.
Proof.
  intros H. unfold Qcle, Qc_of_nat.
  change (Qred (inject_Z (Z.of_nat a)) <= Qred (inject_Z (Z.of_nat b)))%Q.
  rewrite !Qred_correct, <- Zle_Qle. lia.
Qed.

Lemma Qc_of_nat_quotient_range (a b : nat) :
  (a <= b)%nat -> b <> 0%nat ->
  (0 <= Qc_of_nat a / Qc_of_nat b)%Qc /\ (Qc_of_nat a / Qc_of_nat b <= 1)%Qc.
Proof.
  intros Hab Hb.
  assert (Hpos : (0 < Qc_of_nat b)%Qc).
  { destruct (Qcle_lt_or_eq 0 (Qc_of_nat b)) as [H | H];
      [apply (Qc_of_nat_le 0), Nat.le_0_l | exact H |].
    destruct (Qc_of_nat_nonzero b Hb). symmetry. exact H. }
  split.
  - rewrite <- (Qc_div_zero (Qc_of_nat b)).
    apply Qcdiv_le_compat; [exact Hpos |]. apply Qc_of_nat_le, Nat.le_0_l.
  - rewrite <- (Qc_div_same (Qc_of_nat b)) by (apply Qc_of_nat_nonzero, Hb).
    apply Qcdiv_le_compat; [exact Hpos |]. apply Qc_of_nat_le, Hab.
Qed.

(** ** Keyword relevance, continued *)

Section KeywordRange.
Context {embedding : Type}.

(** X3.  The keyword relevance of any query and text lies between 0
    and 1. *)
Theorem keyword_relevance_range (self : t embedding) (query text : pystr) :
  (0 <= fst (_calculate_keyword_relevance self query text))%Qc
  /\ (fst (_calculate_keyword_relevance self query text) <= 1)%Qc.
Proof.
  destruct (decide (keyword_set self query = ∅)) as [Hq | Hq].
  - rewrite keyword_relevance_no_query_keywords by exact Hq.
    split; [apply Qcle_refl | vm_compute; discriminate].
  - rewrite keyword_relevance_quotient by exact Hq.
    apply Qc_of_nat_quotient_range.
    + apply subseteq_size. intros w Hw.
      apply elem_of_intersection in Hw. apply elem_of_union. tauto.
    + intros H. pose proof (proj1 (size_empty_iff _) H) as Hempty.
      apply Hq. set_solver.
Qed.

(** X4.  The keyword relevance does not depend on which of the two
    strings is the query: exchanging query and text gives the same
    score. *)
Theorem keyword_relevance_symmetric (self : t embedding) (query text : pystr) :
  fst (_calculate_keyword_relevance self query text)
  = fst (_calculate_keyword_relevance self text query).
Proof.
  assert (Hzero : forall a b,
            keyword_set self a = ∅ ->
            fst (_calculate_keyword_relevance self b a) = 0%Qc).
  { intros a b Ha.
    destruct (decide (keyword_set self b = ∅)) as [Hb | Hb].
    - apply keyword_relevance_no_query_keywords, Hb.
    - rewrite keyword_relevance_quotient by exact Hb.
      rewrite Ha, (right_absorb_L ∅ (∩)), size_empty. apply Qc_div_zero. }
  destruct (decide (keyword_set self query = ∅)) as [Hq | Hq].
  - rewrite keyword_relevance_no_query_keywords by exact Hq.
    symmetry. apply Hzero, Hq.
  - destruct (decide (keyword_set self text = ∅)) as [Ht | Ht].
    + rewrite (keyword_relevance_no_query_keywords self text) by exact Ht.
      apply Hzero, Ht.
    + rewrite !keyword_relevance_quotient by assumption.
      rewrite (comm_L (∩) (keyword_set self text)),
        (comm_L (∪) (keyword_set self text)).
      reflexivity.
Qed.

End KeywordRange.

(** ** Keyword extraction *)

Lemma counter_get_add (w : pystr) (c : list (pystr * nat)) (x : pystr) :
  Spec.counter_get (TextProcessor.counter_add w c) x
  = if decide (x = w) then S (Spec.counter_get c x) else Spec.counter_get c x.
Proof.
  induction c as [|[w' n] c IH]; cbn.
  - repeat case_decide; reflexivity.
  - destruct (decide (w = w')) as [-> | Hne]; cbn.
    + repeat case_decide; reflexivity.
    + rewrite IH. repeat case_decide; congruence.
Qed.

Lemma counter_add_keys_eq (w : pystr) (c : list (pystr * nat)) :
  map fst (TextProcessor.counter_add w c)
  = if decide (w ∈ map fst c) then map fst c else map fst c ++ [w].
Proof.
  induction c as [|[w' n] c IH]; cbn.
  - rewrite decide_False by (intros H; inversion H). reflexivity.
  - destruct (decide (w = w')) as [-> | Hne]; cbn.
    + rewrite decide_True by left. reflexivity.
    + rewrite IH. destruct (decide (w ∈ map fst c)) as [Hin | Hin].
      * rewrite decide_True by (right; exact Hin). reflexivity.
      * rewrite decide_False; [reflexivity |].
        intros H. apply elem_of_cons in H as [H | H]; contradiction.
Qed.

Lemma counter_get_elem (c : list (pystr * nat)) (w : pystr) (k : nat) :
  NoDup (map fst c) -> (w, k) ∈ c -> Spec.counter_get c w = k.
Proof.
  induction c as [|[w' n] c IH]; cbn; intros Hnd Hin; [inversion Hin |].
  apply NoDup_cons in Hnd as [Hw' Hnd].
  apply elem_of_cons in Hin as [Heq | Hin].
  - injection Heq as -> ->. rewrite decide_True; reflexivity.
  - rewrite decide_False; [apply IH; assumption |].
    intros ->. apply Hw'. apply list_elem_of_fmap. exists (w', k). auto.
Qed.

Lemma Counter_spec (ws : list pystr) :
  NoDup (map fst (TextProcessor.Counter ws))
  /\ (forall x, Spec.counter_get (TextProcessor.Counter ws) x
                = Spec.frequency x ws)
  /\ (forall x, x ∈ ws -> x ∈ map fst (TextProcessor.Counter ws)).
Proof.
  unfold TextProcessor.Counter.
  assert (H : forall c,
    NoDup (map fst c) ->
    let c' := foldl (fun c w => TextProcessor.counter_add w c) c ws in
    NoDup (map fst c')
    /\ (forall x, Spec.counter_get c' x
                  = (Spec.counter_get c x + Spec.frequency x ws)%nat)
    /\ (forall x, x ∈ map fst c \/ x ∈ ws -> x ∈ map fst c')).
  { induction ws as [|w ws IH]; intros c Hnd; cbn zeta.
    - cbn. repeat split; auto.
      intros x [H | H]; [exact H | inversion H].
    - cbn [foldl].
      assert (Hnd' : NoDup (map fst (TextProcessor.counter_add w c))).
      { rewrite counter_add_keys_eq. case_decide; [exact Hnd |].
        apply NoDup_app. repeat split; [exact Hnd | | apply NoDup_singleton].
        intros x Hx Hx'. apply list_elem_of_singleton in Hx'. congruence. }
      destruct (IH _ Hnd') as (Hn & Hget & Hkeys).
      split; [exact Hn |]. split.
      + intros x. rewrite Hget, counter_get_add.
        unfold Spec.frequency. rewrite filter_cons.
        destruct (decide (x = w)) as [-> | Hne].
        * rewrite decide_True by reflexivity. cbn. lia.
        * rewrite decide_False by congruence. reflexivity.
      + intros x Hx. apply Hkeys.
        rewrite counter_add_keys_eq.
        destruct Hx as [Hx | Hx].
        * left. case_decide; [exact Hx | apply elem_of_app; auto].
        * apply elem_of_cons in Hx as [-> | Hx]; [left | right; exact Hx].
          case_decide; [assumption |].
          apply elem_of_app. right. left. }
  destruct (H [] (NoDup_nil_2)) as (Hn & Hget & Hkeys).
  split; [exact Hn |]. split; [exact Hget |]. intros x Hx. apply Hkeys. auto.
Qed.

Lemma StronglySorted_lookup {A : Type} (R : A -> A -> Prop) (l : list A)
  (i j : nat) (a b : A) :
  StronglySorted R l -> (i < j)%nat ->
  l !! i = Some a -> l !! j = Some b -> R a b.
Proof.
  intros Hs. revert i j. induction Hs as [|x l Hs IH Hx]; intros i j Hij Hi Hj;
    [inversion Hi |].
  destruct j as [|j]; [lia |]. cbn in Hj. destruct i as [|i].
  - cbn in Hi. injection Hi as ->. rewrite Forall_forall in Hx.
    eapply Hx, list_elem_of_lookup_2, Hj.
  - cbn in Hi. apply (IH i j); [lia | assumption | assumption].
Qed.

Lemma StronglySorted_app_elem {A : Type} (R : A -> A -> Prop)
  (l1 l2 : list A) (a b : A) :
  StronglySorted R (l1 ++ l2) -> a ∈ l1 -> b ∈ l2 -> R a b.
Proof.
  intros Hs Ha Hb.
  apply list_elem_of_lookup in Ha as [i Hi].
  apply list_elem_of_lookup in Hb as [j Hj].
  apply (StronglySorted_lookup R (l1 ++ l2) i (length l1 + j)); [exact Hs | | |].
  - apply lookup_lt_Some in Hi. lia.
  - rewrite lookup_app_l by (eapply lookup_lt_Some, Hi). exact Hi.
  - rewrite lookup_app_r by lia.
    replace (length l1 + j - length l1)%nat with j by lia. exact Hj.
Qed.

(** X5.  With a loaded pipeline and a non-empty text, the extracted
    keywords are distinct words taken from the candidate keywords, at
    most [max_keywords] of them, listed by decreasing frequency; a
    candidate that is left out is no more frequent than any keyword that
    is returned, and a candidate is left out only when [max_keywords]
    keywords are returned: otherwise every candidate is returned. *)
Theorem extract_keywords_most_frequent (self : TextProcessor.t)
  (pipeline : pystr -> list TextProcessor.token) (text : pystr)
  (max_keywords : nat) :
  TextProcessor.nlp self = Some pipeline -> text <> [] ->
  let keywords := Spec.candidate_keywords pipeline text in
  let result := TextProcessor.extract_keywords self text max_keywords in
  NoDup result
  /\ (length result <= max_keywords)%nat
  /\ (forall w, w ∈ result -> w ∈ keywords)
  /\ (forall i j wi wj,
        (i < j)%nat -> result !! i = Some wi -> result !! j = Some wj ->
        (Spec.frequency wj keywords <= Spec.frequency wi keywords)%nat)
  /\ (forall w w',
        w ∈ result -> w' ∈ keywords -> w' ∉ result ->
        (Spec.frequency w' keywords <= Spec.frequency w keywords)%nat)
  /\ (forall w',
        w' ∈ keywords -> w' ∉ result -> length result = max_keywords).
Proof.
  intros Hnlp Htext keywords result.
  destruct (Counter_spec keywords) as (Hnd & Hget & Hkeys).
  set (c := TextProcessor.Counter keywords) in *.
  set (sorted := sorted_by Nat.leb snd true c).
  assert (Hresult : result = map fst (take max_keywords sorted)).
  { unfold result, TextProcessor.extract_keywords. rewrite Hnlp.
    destruct text; [congruence | reflexivity]. }
  assert (Hperm : Permutation sorted c) by apply sorted_by_perm.
  assert (Hsorted : StronglySorted (fun a b => (snd b <= snd a)%nat) sorted).
  { eapply StronglySorted_weaken;
      [| apply (sorted_by_sorted Nat.leb)].
    - intros a b H. apply Nat.leb_le in H. exact H.
    - intros a b. rewrite !Nat.leb_le. lia.
    - intros a b d. rewrite !Nat.leb_le. lia. }
  assert (Hfreq : forall w k, (w, k) ∈ sorted -> k = Spec.frequency w keywords).
  { intros w k Hin. rewrite <- Hget. symmetry.
    apply counter_get_elem; [exact Hnd |]. rewrite <- Hperm. exact Hin. }
  assert (Hnd_sorted : NoDup (map fst sorted)).
  { rewrite Hperm. exact Hnd. }
  assert (Hsplit : sorted = take max_keywords sorted ++ drop max_keywords sorted)
    by (symmetry; apply take_drop).
  rewrite Hresult. split.
  { rewrite Hsplit, fmap_app in Hnd_sorted.
    apply NoDup_app in Hnd_sorted. apply Hnd_sorted. }
  split; [rewrite length_map, length_take; lia |]. split.
  { intros w Hw. apply list_elem_of_fmap in Hw as ([w' k] & -> & Hin).
    apply (subseteq_take max_keywords) in Hin. cbn.
    apply (Counter_keys keywords). apply list_elem_of_fmap.
    exists (w', k). split; [reflexivity |]. fold c. rewrite <- Hperm.
    exact Hin. }
  split.
  { intros i j wi wj Hij Hi Hj.
    rewrite list_lookup_fmap in Hi, Hj.
    destruct (take max_keywords sorted !! i) as [[wi' ki]|] eqn:Ei;
      [| discriminate].
    destruct (take max_keywords sorted !! j) as [[wj' kj]|] eqn:Ej;
      [| discriminate].
    cbn in Hi, Hj. injection Hi as ->. injection Hj as ->.
    pose proof (StronglySorted_lookup _ _ i j _ _
                  (StronglySorted_take _ max_keywords _ Hsorted) Hij Ei Ej) as Hle.
    cbn in Hle.
    rewrite <- (Hfreq wi ki), <- (Hfreq wj kj); [exact Hle | |];
      eapply (subseteq_take max_keywords), list_elem_of_lookup_2; eassumption. }
  assert (Hleft : forall w',
    w' ∈ keywords -> w' ∉ map fst (take max_keywords sorted) ->
    exists k', (w', k') ∈ drop max_keywords sorted).
  { intros w' Hw' Hout.
    apply Hkeys, list_elem_of_fmap in Hw' as ([w1 k'] & Heq & Hin').
    cbn in Heq. subst w1. rewrite <- Hperm, Hsplit in Hin'.
    apply elem_of_app in Hin' as [Hin' | Hin']; [| eauto].
    destruct Hout. apply list_elem_of_fmap. exists (w', k'). auto. }
  split.
  - intros w w' Hw Hw' Hout.
    apply list_elem_of_fmap in Hw as ([w0 k] & -> & Hin). cbn.
    destruct (Hleft w' Hw' Hout) as [k' Hin'].
    pose proof Hsorted as Hs. rewrite Hsplit in Hs.
    pose proof (StronglySorted_app_elem _ _ _ _ _ Hs Hin Hin') as Hle.
    cbn in Hle.
    rewrite <- (Hfreq w0 k), <- (Hfreq w' k'); [exact Hle | |].
    + rewrite Hsplit. apply elem_of_app. auto.
    + apply (subseteq_take max_keywords), Hin.
  - intros w' Hw' Hout. destruct (Hleft w' Hw' Hout) as [k' Hin'].
    rewrite length_map, length_take.
    destruct (Nat.le_gt_cases (length sorted) max_keywords) as [Hlen | Hlen];
      [| lia].
    rewrite drop_ge in Hin' by exact Hlen. inversion Hin'.
Qed.

Lemma extract_keywords_most_frequent_witness :
  length (TextProcessor.extract_keywords
            (text_processor Spec.extractor_with_words)
            (str "growth revenue growth") 1) = 1%nat.
Proof.
  destruct (extract_keywords_most_frequent
              (text_processor Spec.extractor_with_words) Spec.word_pipeline
              (str "growth revenue growth") 1)
    as (_ & _ & _ & _ & _ & Hfull); [reflexivity | discriminate |].
  apply (Hfull (str "revenue")).
  - vm_compute. right. left.
  - vm_compute. intros H. inversion H as [| ? ? ? Hnil]. inversion Hnil.
Defined.

(** ** Hierarchy refinement, continued *)

(** X6.  Refinement does not read the levels it is given: two lists of
    headings that agree on text, page and font size give the same
    result. *)
Theorem refine_ignores_levels (headings headings' : list heading) :
  Forall2 (fun h h' => OutlineExtractor.text h' = OutlineExtractor.text h /\ OutlineExtractor.page h' = OutlineExtractor.page h
                       /\ OutlineExtractor.font_size h' = OutlineExtractor.font_size h) headings headings' ->
  _refine_heading_hierarchy headings' = _refine_heading_hierarchy headings.
Proof.
  intros Hsame. rewrite !refine_heading_hierarchy_eq.
  assert (Hsizes : map OutlineExtractor.font_size headings' = map OutlineExtractor.font_size headings).
  { induction Hsame as [|h h' l l' (_ & _ & Hs) _ IH]; [reflexivity |].
    cbn. rewrite Hs, IH. reflexivity. }
  assert (Hrelevel : relevel headings' = relevel headings).
  { unfold relevel.
    rewrite (unique_font_sizes_ext headings' headings)
      by (intros s; rewrite Hsizes; reflexivity).
    generalize (font_to_level (unique_font_sizes headings)) as ftl. intros ftl.
    induction Hsame as [|h h' l l' (Ht & Hp & Hs) _ IH]; [reflexivity |].
    cbn [map]. rewrite IH by (cbn in Hsizes; congruence). f_equal.
    unfold set_level. rewrite Ht, Hp, Hs. reflexivity. }
  rewrite Hrelevel. reflexivity.
Qed.

Lemma refine_ignores_levels_witness :
  _refine_heading_hierarchy
    (map (fun h => {| level := str "H9";
                         OutlineExtractor.text := OutlineExtractor.text h;
                         OutlineExtractor.page := OutlineExtractor.page h;
                         OutlineExtractor.font_size := OutlineExtractor.font_size h |}) Spec.sample_headings)
  = _refine_heading_hierarchy Spec.sample_headings.
Proof.
  apply refine_ignores_levels.
  apply Forall2_fmap_r, Forall_Forall2_diag, Forall_forall.
  intros h _. cbn. auto.
Defined.

(** X7.  Refinement loses nothing below the cap: the outline of [n]
    headings has exactly [min 50 n] entries, and all [n] headings of the
    input list are assigned a level. *)
Theorem refine_outline_length (headings : list heading) :
  exists headings' outline,
    _refine_heading_hierarchy headings = Some (headings', outline)
    /\ length headings' = length headings
    /\ length outline = (50 `min` length headings)%nat.
Proof.
  eexists _, _. split; [apply refine_heading_hierarchy_eq |].
  unfold relevel.
  rewrite length_take, !length_map, sorted_by_length, length_map. auto.
Qed.

(** ** [classify_heading_level] *)

Lemma list_index_rank (a b : Qc) (r : list Qc) (x : Qc) :
  match TextProcessor.list_index (a :: b :: r) x with
  | Some size_rank =>
      if (size_rank =? 0)%nat then str "H1"
      else if (size_rank =? 1)%nat then str "H2" else str "H3"
  | None => str "H3"
  end
  = if decide (x = a) then str "H1"
    else if decide (x = b) then str "H2" else str "H3".
Proof.
  cbn [TextProcessor.list_index].
  destruct (decide (a = x)), (decide (x = a)); try congruence;
    [reflexivity |].
  destruct (decide (b = x)), (decide (x = b)); try congruence;
    [reflexivity |].
  destruct (TextProcessor.list_index r x); reflexivity.
Qed.

(** X8.  The provisional level of a heading follows the same ranking as
    refinement whenever the sizes seen so far contain two different
    values: H1 for the largest size, H2 for the second-largest, H3 for
    every other size, also for a size that is not in the list.  When all
    sizes seen so far are equal, or there are none, the level is H1
    whatever the size of the heading is. *)
Theorem classify_heading_level_rank (text : pystr) (font_size : Qc)
  (font_sizes : list Qc) :
  ((exists a b, a ∈ font_sizes /\ b ∈ font_sizes /\ a <> b) ->
   Spec.level_by_rank font_sizes font_size
     (TextProcessor.classify_heading_level text font_size font_sizes))
  /\ ((forall a b, a ∈ font_sizes -> b ∈ font_sizes -> a = b) ->
      TextProcessor.classify_heading_level text font_size font_sizes
      = str "H1").
Proof.
  set (hs := map (fun s => {| level := []; OutlineExtractor.text := [];
                              OutlineExtractor.page := 0;
                              OutlineExtractor.font_size := s |})
                 font_sizes).
  assert (Hmap : map OutlineExtractor.font_size hs = font_sizes).
  { unfold hs. rewrite map_map. cbn. apply map_id. }
  assert (Hclassify :
    TextProcessor.classify_heading_level text font_size font_sizes
    = match font_sizes with
      | [] => str "H1"
      | _ => match unique_font_sizes hs with
             | a :: b :: r =>
                 if decide (font_size = a) then str "H1"
                 else if decide (font_size = b) then str "H2" else str "H3"
             | _ => str "H1"
             end
      end).
  { unfold TextProcessor.classify_heading_level, unique_font_sizes.
    rewrite Hmap. destruct font_sizes as [|s0 l]; [reflexivity |].
    cbv zeta.
    destruct (sorted_by Qc_leb id true _) as [|a [|b r]]; try reflexivity.
    change (length (a :: b :: r) <? 2)%nat with false. cbv iota.
    apply list_index_rank. }
  pose proof (unique_font_sizes_NoDup hs) as Hnd.
  pose proof (unique_font_sizes_elem hs) as Helem. rewrite Hmap in Helem.
  pose proof (level_by_rank_font_to_level hs font_size) as Hrank.
  rewrite Hmap, font_to_level_lookup in Hrank by exact Hnd.
  rewrite Hclassify. split.
  - intros (a & b & Ha & Hb & Hab).
    destruct font_sizes as [|s0 l]; [inversion Ha |].
    apply Helem in Ha, Hb.
    destruct (unique_font_sizes hs) as [|x [|y r]]; [inversion Ha | | exact Hrank].
    apply list_elem_of_singleton in Ha, Hb. congruence.
  - intros Hall. destruct font_sizes as [|s0 l]; [reflexivity |].
    destruct (unique_font_sizes hs) as [|x [|y r]]; try reflexivity.
    apply NoDup_cons in Hnd as [Hxy _]. destruct Hxy.
    rewrite (Hall x y); [left | apply Helem; left | apply Helem; right; left].
Qed.

(** ** The document parser's wrapper *)

(** X9.  Every item that [extract_text_with_formatting] returns for a
    page has a non-empty text without leading or trailing white space
    and carries the 1-based number of the page; only pages of the loaded
    document have items, so nothing is returned without a document or
    for a page number past the end. *)
Theorem extract_text_with_formatting_items (pdf : PDFProcessor.t)
  (page_num : nat) :
  Forall (fun item =>
            PDFProcessor.text item <> []
            /\ strip (PDFProcessor.text item) = PDFProcessor.text item
            /\ PDFProcessor.page item = Z.of_nat page_num + 1
            /\ (page_num < PDFProcessor.get_page_count pdf)%nat)
         (PDFProcessor.extract_text_with_formatting pdf page_num)
  /\ ((PDFProcessor.get_page_count pdf <= page_num)%nat ->
      PDFProcessor.extract_text_with_formatting pdf page_num = []).
Proof.
  unfold PDFProcessor.extract_text_with_formatting, PDFProcessor.get_page_count.
  destruct (PDFProcessor.doc pdf) as [d|]; [| split; [constructor | reflexivity]].
  destruct (d !! page_num) as [pg|] eqn:Hpage.
  - apply lookup_lt_Some in Hpage. split; [| lia].
    apply Forall_forall. intros item Hitem.
    apply list_elem_of_In, in_flat_map in Hitem as (block & _ & Hitem).
    destruct block as [lines|]; [| inversion Hitem].
    apply in_flat_map in Hitem as (line & _ & Hitem).
    apply in_flat_map in Hitem as (span & _ & Hitem).
    destruct (strip (PDFProcessor.raw_text span)) as [|c t] eqn:Hstrip;
      [inversion Hitem |].
    destruct Hitem as [<- | []]. cbn [PDFProcessor.text PDFProcessor.page].
    split; [discriminate |]. split; [| auto].
    rewrite <- Hstrip. apply strip_idempotent.
  - split; [constructor | reflexivity].
Qed.

Lemma extract_items_text_nonempty (pdf : PDFProcessor.t) (page_num : nat) :
  Forall (fun item => PDFProcessor.text item <> [])
         (PDFProcessor.extract_text_with_formatting pdf page_num).
Proof.
  unfold PDFProcessor.extract_text_with_formatting.
  destruct (PDFProcessor.doc pdf) as [d|]; [| constructor].
  destruct (d !! page_num) as [pg|]; [| constructor].
  apply Forall_forall. intros item Hitem.
  apply list_elem_of_In, in_flat_map in Hitem as (block & _ & Hitem).
  destruct block as [lines|]; [| inversion Hitem].
  apply in_flat_map in Hitem as (line & _ & Hitem).
  apply in_flat_map in Hitem as (span & _ & Hitem).
  destruct (strip (PDFProcessor.raw_text span)); [inversion Hitem |].
  destruct Hitem as [<- | []]. discriminate.
Qed.

Lemma py_max_largest (first : Qc) (rest : list Qc) :
  Spec.largest (first :: rest) (PDFProcessor.py_max first rest).
Proof.
  unfold PDFProcessor.py_max, Spec.largest.
  assert (H : forall l m,
    let r := foldl (fun m x => if Qc_ltb m x then x else m) m l in
    (r = m \/ r ∈ l) /\ (m <= r)%Qc /\ forall x, x ∈ l -> (x <= r)%Qc).
  { induction l as [|y l IH]; intros m; cbn zeta.
    - cbn. split; [auto |]. split; [apply Qcle_refl |].
      intros x Hx. inversion Hx.
    - cbn [foldl].
      destruct (IH (if Qc_ltb m y then y else m)) as (Hin & Hle & Hall).
      assert (Hm : (m <= (if Qc_ltb m y then y else m))%Qc
                   /\ (y <= (if Qc_ltb m y then y else m))%Qc).
      { destruct (Qc_ltb m y) eqn:Hlt.
        - apply Qc_ltb_spec in Hlt. split; [apply Qclt_le_weak, Hlt | apply Qcle_refl].
        - split; [apply Qcle_refl |]. apply Qcnot_lt_le. intros Hc.
          apply Qc_ltb_spec in Hc. congruence. }
      destruct Hm as [Hm Hy]. split; [| split].
      + destruct Hin as [-> | Hin]; [| right; right; exact Hin].
        destruct (Qc_ltb m y); [right; left | left; reflexivity].
      + eapply Qcle_trans; eassumption.
      + intros x Hx. apply elem_of_cons in Hx as [-> | Hx];
          [eapply Qcle_trans; eassumption | apply Hall, Hx]. }
  destruct (H rest first) as (Hin & Hle & Hall). split.
  - destruct Hin as [-> | Hin]; [left | right; exact Hin].
  - intros t Ht. apply elem_of_cons in Ht as [-> | Ht]; auto.
Qed.

(** X10.  The detected title is [None] exactly when the first page has no
    item (no document, no page, or only blank spans).  Otherwise it is the
    texts of the first two items of the largest font size on the first
    page, joined by a blank; such an item always exists, so neither the
    fallback to a long span nor ["Untitled Document"] is ever reached,
    and the title is never the empty string. *)
Theorem detect_document_title_largest (pdf : PDFProcessor.t) :
  let items := PDFProcessor.extract_text_with_formatting pdf 0 in
  (PDFProcessor.detect_document_title pdf = None <-> items = [])
  /\ (items <> [] ->
      exists m title_candidates,
        Spec.largest (map PDFProcessor.font_size items) m
        /\ title_candidates
           = map PDFProcessor.text
               (List.filter
                  (fun item => bool_decide (PDFProcessor.font_size item = m))
                  items)
        /\ title_candidates <> []
        /\ PDFProcessor.detect_document_title pdf
           = Some (join (str " ") (take 2 title_candidates))
        /\ join (str " ") (take 2 title_candidates) <> []).
Proof.
  intros items.
  pose proof (extract_items_text_nonempty pdf 0) as Hshape.
  fold items in Hshape.
  unfold PDFProcessor.detect_document_title. fold items.
  destruct (PDFProcessor.doc pdf) as [d|] eqn:Hdoc.
  2:{ assert (Hnil : items = []).
      { unfold items, PDFProcessor.extract_text_with_formatting.
        rewrite Hdoc. reflexivity. }
      rewrite Hnil. split; [tauto | congruence]. }
  destruct items as [|first rest] eqn:Hitems; [split; [tauto | congruence] |].
  set (m := PDFProcessor.py_max (PDFProcessor.font_size first)
              (map PDFProcessor.font_size rest)).
  pose proof (py_max_largest (PDFProcessor.font_size first)
                (map PDFProcessor.font_size rest)) as Hlargest.
  fold m in Hlargest.
  set (selected := List.filter
                     (fun item => bool_decide (PDFProcessor.font_size item = m))
                     (first :: rest)).
  assert (Hsel : selected <> []).
  { destruct Hlargest as [Hin _].
    change (PDFProcessor.font_size first :: map PDFProcessor.font_size rest)
      with (map PDFProcessor.font_size (first :: rest)) in Hin.
    apply list_elem_of_fmap in Hin as (item & Hm & Hitem).
    assert (Hi : In item selected).
    { apply filter_In. split; [apply list_elem_of_In, Hitem |].
      apply bool_decide_eq_true. congruence. }
    intros Hnil. rewrite Hnil in Hi. inversion Hi. }
  assert (Hnonempty : Forall (fun p : pystr => p <> [])
                             (take 2 (map PDFProcessor.text selected))).
  { apply Forall_take, Forall_fmap, Forall_forall. intros item Hitem.
    apply list_elem_of_In, filter_In in Hitem as [Hitem _].
    rewrite Forall_forall in Hshape.
    apply (Hshape item), list_elem_of_In, Hitem. }
  destruct selected as [|s0 sel] eqn:Hselected; [congruence |].
  cbn [map]. split; [split; discriminate |].
  intros _. exists m, (map PDFProcessor.text (s0 :: sel)).
  split; [exact Hlargest |]. fold selected. rewrite Hselected.
  split; [reflexivity |]. split; [discriminate |]. split; [reflexivity |].
  intros Hjoin. apply join_nil in Hjoin; [discriminate | exact Hnonempty].
Qed.

(** ** [_extract_headings] *)




(** ** [segment_text_into_sections] *)

Lemma cons_head_length (c : ascii) (parts : list pystr) :
  (length (TextProcessor.cons_head c parts) <= S (length parts))%nat
  /\ TextProcessor.cons_head c parts <> [].
Proof. destruct parts; cbn; split; try lia; discriminate. Qed.

Lemma split_whitespace_length (s : pystr) :
  (length (TextProcessor.split_whitespace s) <= length s)%nat.
Proof.
  induction s as [|c s IH]; cbn; [lia |].
  destruct (isspace c); [lia |].
  destruct s as [|c' s']; [cbn; lia |].
  pose proof (cons_head_length c (TextProcessor.split_whitespace (c' :: s'))).
  destruct (isspace c'); cbn [length] in *; lia.
Qed.

Lemma split_whitespace_nonempty (c : ascii) (s : pystr) :
  isspace c = false -> TextProcessor.split_whitespace (c :: s) <> [].
Proof.
  intros Hc. cbn. rewrite Hc. destruct s as [|c' s']; [discriminate |].
  destruct (isspace c'); [discriminate | apply cons_head_length].
Qed.

(** Indices produced from an enumeration are increasing when every
    element yields at most one record that carries its index. *)
Lemma enumerated_sections_sorted (f : pystr -> option (nat -> TextProcessor.text_section))
  (parts : list pystr) (k : nat) :
  (forall part g i, f part = Some g -> TextProcessor.index (g i) = i) ->
  let out := flat_map (fun '(i, part) =>
                         match f part with
                         | Some g => [g i]
                         | None => []
                         end)
                      (zip (seq k (length parts)) parts) in
  StronglySorted lt (map TextProcessor.index out)
  /\ Forall (fun r => (k <= TextProcessor.index r < k + length parts)%nat) out.
Proof.
  intros Hf. revert k. induction parts as [|part parts IH]; intros k; cbn zeta.
  - cbn. split; constructor.
  - cbn [length seq zip zip_with flat_map].
    destruct (IH (S k)) as [Hs Hr]. cbn zeta in Hs, Hr.
    assert (Hr' : Forall (fun r => (k <= TextProcessor.index r
                                    < k + S (length parts))%nat)
                         (flat_map (fun '(i, part) =>
                                      match f part with
                                      | Some g => [g i]
                                      | None => []
                                      end)
                                   (zip (seq (S k) (length parts)) parts))).
    { eapply Forall_impl; [exact Hr |]. cbn beta. intros r Hk. lia. }
    destruct (f part) as [g|] eqn:Hg; cbn [app map]; [| split; assumption].
    split.
    + constructor; [exact Hs |]. apply Forall_fmap.
      eapply Forall_impl; [exact Hr |]. cbn beta. unfold compose.
      intros r Hk. rewrite (Hf part g k Hg). lia.
    + constructor; [| exact Hr']. rewrite (Hf part g k Hg). lia.
Qed.

(** X12.  Every section returned by [segment_text_into_sections] has a
    text without leading or trailing white space of more than 20
    characters, its [char_count] is the length of that text, its
    [word_count] is at least 1 and at most [char_count], and the indices
    of the returned sections are strictly increasing positions among the
    paragraphs of the text.  The empty text has no sections. *)
Theorem segment_text_into_sections_shape (text : pystr) :
  let sections := TextProcessor.segment_text_into_sections text in
  Forall (fun r =>
            strip (TextProcessor.section_text r) = TextProcessor.section_text r
            /\ TextProcessor.char_count r
               = length (TextProcessor.section_text r)
            /\ (20 < TextProcessor.char_count r)%nat
            /\ (1 <= TextProcessor.word_count r <= TextProcessor.char_count r)%nat
            /\ (TextProcessor.index r
                < length (TextProcessor.split_blank_lines 0 text))%nat)
         sections
  /\ StronglySorted lt (map TextProcessor.index sections)
  /\ (text = [] -> sections = []).
Proof.
  cbn zeta. destruct text as [|c0 text];
    [split; [constructor | split; [constructor | reflexivity]] |].
  unfold TextProcessor.segment_text_into_sections.
  set (parts := TextProcessor.split_blank_lines 0 (c0 :: text)).
  set (f := fun part : pystr =>
              match strip part with
              | [] => None
              | _ => if (20 <? length (strip part))%nat
                     then Some (fun i =>
                            {| TextProcessor.index := i;
                               TextProcessor.section_text := strip part;
                               TextProcessor.word_count :=
                                 length (TextProcessor.split_whitespace (strip part));
                               TextProcessor.char_count := length (strip part) |})
                     else None
              end).
  assert (Hout :
    flat_map
      (fun '(i, section) =>
         match strip section with
         | [] => []
         | _ :: _ =>
             if (20 <? length (strip section))%nat
             then [ {| TextProcessor.index := i;
                       TextProcessor.section_text := strip section;
                       TextProcessor.word_count :=
                         length (TextProcessor.split_whitespace (strip section));
                       TextProcessor.char_count := length (strip section) |} ]
             else []
         end)
      (zip (seq 0 (length parts)) parts)
    = flat_map (fun '(i, part) =>
                  match f part with
                  | Some g => [g i]
                  | None => []
                  end)
               (zip (seq 0 (length parts)) parts)).
  { apply flat_map_ext. intros [i part]. unfold f.
    destruct (strip part); [reflexivity |].
    destruct (20 <? _)%nat; reflexivity. }
  rewrite Hout.
  assert (Hf : forall part g i, f part = Some g -> TextProcessor.index (g i) = i).
  { intros part g i. unfold f. destruct (strip part); [discriminate |].
    destruct (20 <? _)%nat; [| discriminate].
    intros H. injection H as <-. reflexivity. }
  destruct (enumerated_sections_sorted f parts 0 Hf) as [Hsorted Hrange].
  cbn zeta in Hsorted, Hrange.
  split; [| split; [exact Hsorted | discriminate]].
  apply Forall_forall. intros r Hr.
  assert (Hidx : (TextProcessor.index r < length parts)%nat).
  { rewrite Forall_forall in Hrange. specialize (Hrange r Hr). lia. }
  apply list_elem_of_In, in_flat_map in Hr as ([i part] & _ & Hr).
  unfold f in Hr. destruct (strip part) as [|c t] eqn:Hstrip; [inversion Hr |].
  destruct (20 <? length (c :: t))%nat eqn:Hlen; [| inversion Hr].
  destruct Hr as [<- | []]. cbn [TextProcessor.section_text
    TextProcessor.char_count TextProcessor.word_count TextProcessor.index] in *.
  apply Nat.ltb_lt in Hlen.
  split; [rewrite <- Hstrip; apply strip_idempotent |].
  split; [reflexivity |]. split; [exact Hlen |]. split; [| exact Hidx].
  split; [| apply split_whitespace_length].
  assert (Hc : isspace c = false).
  { pose proof (strip_idempotent part) as Hid. rewrite Hstrip in Hid.
    unfold strip in Hid.
    destruct (lstrip (c :: t)) as [|d u] eqn:Hl.
    - cbn in Hid. discriminate.
    - pose proof (lstrip_head _ _ _ Hl) as Hd.
      destruct (rstrip_keeps_head d u Hd) as (u' & Hu). rewrite Hu in Hid.
      injection Hid as -> _. exact Hd. }
  pose proof (split_whitespace_nonempty c t Hc) as Hne.
  destruct (TextProcessor.split_whitespace (c :: t)); [congruence | cbn; lia].
Qed.

(** ** Section content *)

Lemma split_on_no_separator (sep : ascii) (s : pystr) :
  Forall (Forall (fun c => c <> sep)) (split_on sep s)
  /\ split_on sep s <> [].
Proof.
  induction s as [|c s [IH Hne]]; cbn.
  - split; [repeat constructor | discriminate].
  - destruct (Ascii.eqb c sep) eqn:Hc.
    + split; [constructor; [constructor | exact IH] | discriminate].
    + apply Ascii.eqb_neq in Hc.
      destruct (split_on sep s) as [|w ws]; [congruence |].
      apply Forall_cons in IH as [Hw Hws].
      split; [| discriminate]. constructor; [| exact Hws].
      constructor; assumption.
Qed.

Lemma join_Forall (P : ascii -> Prop) (sep : pystr) (parts : list pystr) :
  Forall P sep -> Forall (Forall P) parts -> Forall P (join sep parts).
Proof.
  intros Hsep Hparts. induction Hparts as [|p parts Hp Hparts IH]; cbn;
    [constructor |].
  destruct parts as [|q parts]; [exact Hp |].
  apply Forall_app. split; [exact Hp |]. apply Forall_app. auto.
Qed.

(** X13.  The content extracted for a heading is a single line: it never
    contains a line feed, whether or not the heading is found. *)
Theorem extract_section_content_one_line (page_text heading : pystr)
  (page_num : Z) :
  Forall (fun c => c <> "010"%char)
         (_extract_section_content page_text heading page_num).
Proof.
  unfold _extract_section_content.
  pose proof (proj1 (split_on_no_separator "010"%char page_text)) as Hlines.
  assert (Hblank : Forall (fun c : ascii => c <> "010"%char) (str " "))
    by (repeat constructor; discriminate).
  destruct (_ =? -1).
  - apply join_Forall; [exact Hblank | apply Forall_take, Hlines].
  - apply strip_Forall, join_Forall; [exact Hblank |].
    unfold slice. apply Forall_take, Forall_drop, Hlines.
Qed.

(** ** The sections of a document *)

Lemma enumerate_lookup {A : Type} (l : list A) (k i : nat) (x : A) :
  enumerate l !! k = Some (i, x) <-> i = k /\ l !! k = Some x.
Proof.
  unfold enumerate.
  assert (H : forall o, zip (seq o (length l)) l !! k = Some (i, x)
                        <-> i = (o + k)%nat /\ l !! k = Some x).
  { revert k. induction l as [|y l IH]; intros k o; cbn.
    - split; [intros H; inversion H | intros [_ H]; inversion H].
    - destruct k as [|k]; cbn.
      + split.
        * intros H. injection H as <- <-. split; [lia | reflexivity].
        * intros [-> H]. injection H as <-. do 2 f_equal. lia.
      + rewrite IH. split; intros [-> H]; split; auto; lia. }
  apply (H 0%nat).
Qed.

Section DocumentFacts.
Context {embedding : Type}.

(** X14.  The sections of a document all name the document, lie on its
    pages (numbered from 1) and have the level ["content"] or ["H2"]; a
    document that cannot be loaded has no sections. *)
Theorem extract_document_sections_shape (self : t embedding)
  (filename : pystr) (pages : option (list (list span * pystr))) :
  match pages with
  | None => _extract_document_sections self filename pages = []
  | Some ps =>
      Forall (fun section =>
                document section = filename
                /\ 1 <= s_page section <= Z.of_nat (length ps)
                /\ (heading_level section = str "content"
                    \/ heading_level section = str "H2"))
             (_extract_document_sections self filename pages)
  end.
Proof.
  destruct pages as [ps|]; [| reflexivity].
  unfold _extract_document_sections.
  apply Forall_forall. intros section Hsec.
  apply list_elem_of_In, in_flat_map in Hsec as ([i [ft pt]] & Hi & Hsec).
  apply list_elem_of_In, list_elem_of_lookup in Hi as [k Hk].
  apply enumerate_lookup in Hk as [-> Hk]. apply lookup_lt_Some in Hk.
  unfold page_sections in Hsec. rewrite find_headings_in_page_eq in Hsec.
  destruct (Spec.accepted ft) as [|item items].
  - cbn [map] in Hsec. destruct (strip pt); [inversion Hsec |].
    destruct Hsec as [<- | []]. cbn. repeat split; auto; lia.
  - apply in_map_iff in Hsec as (h & <- & Hh).
    apply in_map_iff in Hh as (it & <- & _). cbn. repeat split; auto; lia.
Qed.

End DocumentFacts.

(** ** The relevance pipeline *)

Lemma create_refined_text_length (content persona job_to_be_done : pystr) :
  (length (_create_refined_text content persona job_to_be_done) <= 303)%nat.
Proof.
  unfold _create_refined_text. destruct content as [|c content]; [cbn; lia |].
  cbv zeta.
  match goal with
  | |- (length (if (300 <? length ?r)%nat then _ else _) <= 303)%nat =>
      exact (proj1 (truncate_length r))
  end.
Qed.

Section PipelineFacts.
Context {embedding : Type} (cosine : embedding -> embedding -> option Qc).

Lemma rank_sections_length (self : t embedding) (sections : list section)
  (persona job_to_be_done : pystr) :
  length (fst (_rank_sections_by_relevance cosine self sections
                 persona job_to_be_done))
  = length sections.
Proof.
  rewrite rank_sections_eq. cbn [fst].
  rewrite sorted_by_length, score_sections_eq. cbn [fst].
  apply length_map.
Qed.

Lemma extract_relevant_sections_eq (self : t embedding)
  (pdf_files : list (pystr * option (list (list span * pystr))))
  (persona job_to_be_done now : pystr) :
  let ranked :=
    fst (_rank_sections_by_relevance cosine self
           (flat_map (fun '(filename, pages) =>
                        _extract_document_sections self filename pages)
                     pdf_files)
           persona job_to_be_done) in
  extract_relevant_sections cosine self pdf_files persona job_to_be_done now
  = ({| documents := map fst pdf_files;
        persona := persona;
        job_to_be_done := job_to_be_done;
        timestamp := now;
        extracted_sections :=
          map (fun '(i, section) =>
                 {| e_document := document (base section);
                    e_page := s_page (base section);
                    section_title := title (base section);
                    importance_rank := Z.of_nat i + 1 |})
              (enumerate (take 20 ranked));
        sub_section_analysis :=
          _generate_subsection_analysis (take 10 ranked)
                                        persona job_to_be_done |},
     self).
Proof.
  cbn zeta. unfold extract_relevant_sections.
  rewrite rank_sections_eq. reflexivity.
Qed.

(** X15.  The extracted sections are the first [min 20 n] sections of the
    ranking of all [n] sections of all documents, in that order, and
    their importance ranks are 1, 2, 3, ...; every section that is left
    out scores no higher than every extracted one; the documents are
    listed in the order given, and the extractor is left as it was. *)
Theorem extract_relevant_sections_ranked (self : t embedding)
  (pdf_files : list (pystr * option (list (list span * pystr))))
  (persona job_to_be_done now : pystr) :
  let all_sections :=
    flat_map (fun '(filename, pages) =>
                _extract_document_sections self filename pages) pdf_files in
  let ranked :=
    fst (_rank_sections_by_relevance cosine self all_sections
           persona job_to_be_done) in
  let result :=
    extract_relevant_sections cosine self pdf_files persona job_to_be_done now in
  length (extracted_sections (fst result)) = (20 `min` length all_sections)%nat
  /\ (forall k entry,
        extracted_sections (fst result) !! k = Some entry ->
        importance_rank entry = Z.of_nat k + 1
        /\ exists section,
             ranked !! k = Some section
             /\ e_document entry = document (base section)
             /\ e_page entry = s_page (base section)
             /\ section_title entry = title (base section))
  /\ (forall kept dropped,
        kept ∈ take 20 ranked -> dropped ∈ drop 20 ranked ->
        (relevance_score dropped <= relevance_score kept)%Qc)
  /\ documents (fst result) = map fst pdf_files
  /\ snd result = self.
Proof.
  intros all_sections ranked result.
  unfold result. rewrite extract_relevant_sections_eq. cbn [fst snd].
  fold all_sections. fold ranked.
  cbn [extracted_sections documents]. split.
  { unfold enumerate.
    rewrite length_map, length_zip, length_seq, Nat.min_id, length_take.
    unfold ranked. rewrite rank_sections_length. reflexivity. }
  split.
  { intros k entry Hk. rewrite list_lookup_fmap in Hk.
    destruct (enumerate (take 20 ranked) !! k) as [[i section]|] eqn:Hi;
      [| discriminate].
    cbn in Hk. injection Hk as <-.
    apply enumerate_lookup in Hi as [-> Hsec]. cbn.
    split; [reflexivity |]. exists section.
    apply lookup_take_Some in Hsec as [Hsec _]. auto. }
  split; [| auto].
  intros kept dropped Hkept Hdropped.
  assert (Hsorted : StronglySorted
            (fun x y => (relevance_score y <= relevance_score x)%Qc)
            (take 20 ranked ++ drop 20 ranked)).
  { rewrite take_drop. unfold ranked. rewrite rank_sections_eq. cbn [fst].
    eapply StronglySorted_weaken;
      [| apply (sorted_by_sorted Qc_leb Qc_leb_total Qc_leb_trans)].
    intros x y H. apply Qc_leb_spec in H. exact H. }
  apply (StronglySorted_app_elem _ _ _ _ _ Hsorted Hkept Hdropped).
Qed.

(** X16.  The sub-section analysis has [min 10 n] entries; its k-th
    entry summarises the section of the k-th extracted section (same
    document and page), and every refined text has at most 303
    characters. *)
Theorem extract_relevant_sections_analysis (self : t embedding)
  (pdf_files : list (pystr * option (list (list span * pystr))))
  (persona job_to_be_done now : pystr) :
  let all_sections :=
    flat_map (fun '(filename, pages) =>
                _extract_document_sections self filename pages) pdf_files in
  let result :=
    fst (extract_relevant_sections cosine self pdf_files
           persona job_to_be_done now) in
  length (sub_section_analysis result) = (10 `min` length all_sections)%nat
  /\ forall k analysis,
       sub_section_analysis result !! k = Some analysis ->
       (length (refined_text analysis) <= 303)%nat
       /\ exists entry,
            extracted_sections result !! k = Some entry
            /\ e_document entry = a_document analysis
            /\ e_page entry = a_page analysis.
Proof.
  intros all_sections result.
  unfold result. rewrite extract_relevant_sections_eq. cbn [fst].
  fold all_sections.
  set (ranked := fst (_rank_sections_by_relevance cosine self all_sections
                        persona job_to_be_done)).
  cbn [extracted_sections sub_section_analysis].
  unfold _generate_subsection_analysis. split.
  { rewrite length_map, !length_take.
    unfold ranked. rewrite rank_sections_length. lia. }
  intros k analysis Hk. rewrite list_lookup_fmap in Hk.
  destruct (take 10 (take 10 ranked) !! k) as [section|] eqn:Hsec;
    [| discriminate].
  cbn in Hk. injection Hk as <-. cbn [refined_text a_document a_page].
  split; [apply create_refined_text_length |].
  apply lookup_take_Some in Hsec as [Hsec Hk10].
  apply lookup_take_Some in Hsec as [Hsec _].
  assert (Hentry : enumerate (take 20 ranked) !! k = Some (k, section)).
  { apply enumerate_lookup. split; [reflexivity |].
    apply lookup_take_Some. split; [exact Hsec | lia]. }
  eexists. rewrite list_lookup_fmap, Hentry. cbn. auto.
Qed.

End PipelineFacts.

(** ** The text of a whole document *)

(** X17.  [extract_all_text] returns the plain texts of all pages in page
    order, each followed by a line feed: the loop over the page numbers
    reads every page once.  Without a document it returns the empty
    string. *)
Theorem extract_all_text_pages (pdf : PDFProcessor.t) :
  PDFProcessor.extract_all_text pdf
  = match PDFProcessor.doc pdf with
    | None => []
    | Some d =>
        flat_map (fun pg => PDFProcessor.plain_text pg ++ ["010"%char]) d
    end.
Proof.
  unfold PDFProcessor.extract_all_text.
  destruct (PDFProcessor.doc pdf) as [d|] eqn:Hdoc; [| reflexivity].
  assert (H : forall suf pre acc,
    d = pre ++ suf ->
    foldl (fun full_text page_num =>
             full_text ++ PDFProcessor.extract_plain_text pdf page_num
             ++ ["010"%char])
          acc (seq (length pre) (length suf))
    = acc ++ flat_map (fun pg => PDFProcessor.plain_text pg ++ ["010"%char]) suf).
  { induction suf as [|pg suf IH]; intros pre acc Hd; cbn [length seq foldl flat_map].
    - rewrite app_nil_r. reflexivity.
    - assert (Hpage : PDFProcessor.extract_plain_text pdf (length pre)
                      = PDFProcessor.plain_text pg).
      { unfold PDFProcessor.extract_plain_text. rewrite Hdoc, Hd.
        rewrite list_lookup_middle by reflexivity. reflexivity. }
      rewrite Hpage.
      replace (S (length pre)) with (length (pre ++ [pg]))
        by (rewrite length_app; cbn; lia).
      rewrite (IH (pre ++ [pg])) by (rewrite <- app_assoc; exact Hd).
      rewrite <- !app_assoc. reflexivity. }
  apply (H d [] []). reflexivity.
Qed.
